(** * Prusa-Link-Web: the file browser state/render cycle and the direct upload widget

    A shallow embedding of
    - the files page module (metadata store, storage poller, file poller,
      sort comparator, tree helpers), and
    - [src/printer/components/upload/direct.js] (the direct upload widget),
    together with the properties of the specification checked against them.

    Conventions of the embedding.
    - JavaScript numbers that hold timestamps, byte counts and percentages
      are integers, modelled in [Z].
    - A property that may be missing on a JSON object is an [option].
    - [metadata] is the single mutable object of the files page; the code
      that reads and writes it is written in a small state monad [M] that
      also logs the calls that leave the module (DOM redraws, requests) and
      propagates a thrown [TypeError].
    - An asynchronous request is split at its [.then]: the synchronous part
      logs the request, the callback is a function of its own
      ([updateFiles_then], [updateStorage_then]) run when the response
      arrives. *)

From Stdlib Require Import List String Ascii ZArith Bool Lia Permutation Sorted.
From Stdlib Require Import OrderedTypeEx.
Import ListNotations.
Local Open Scope string_scope.
Local Open Scope list_scope.

(** ** JavaScript values used by the code *)

(** What a statement evaluates to: a value, or a thrown exception. *)
Inductive exn : Type := TypeError.

Inductive completion (A : Type) : Type :=
| Return (a : A)
| Throw (e : exn).
Arguments Return {A} a.
Arguments Throw {A} e.

(** Truthiness of a string: only the empty string is falsy. *)
Definition truthy_string (s : string) : bool := negb (s =? EmptyString).

(** [String.prototype.split] with a one-character separator. *)
Fixpoint split (sep : ascii) (s : string) : list string :=
  match s with
  | EmptyString => [EmptyString]
  | String c rest =>
      if Ascii.eqb c sep then EmptyString :: split sep rest
      else match split sep rest with
           | [] => [String c EmptyString]
           | seg :: segs => String c seg :: segs
           end
  end.

(** [Array.prototype.join]. *)
Definition join (sep : string) (l : list string) : string := String.concat sep l.

(** [Array.prototype.slice(1)]. *)
Definition slice1 {A : Type} (l : list A) : list A := skipn 1 l.

(** ** Data model *)

(** A node of the file tree, as the file listing endpoint returns it.
    [children] is absent on a leaf; [display], [size] and [date] may be
    absent: the page reads [entry.display || entry.name] for the label of
    an entry, [entry.size || 0] and [entry.date || 0] for its numbers. *)
#[local] Unset Elimination Schemes.
Inductive FileSystemNode : Type :=
  mkNode {
    name : string;
    display : option string;
    origin : string;
    path : string;
    type : string;
    children : option (list FileSystemNode);
    size : option Z;
    date : option Z
  }.
#[local] Set Elimination Schemes.

Definition isFolder (i : FileSystemNode) : bool := type i =? "folder".
Definition isMachinecode (i : FileSystemNode) : bool := type i =? "machinecode".

(** Induction over the tree, with the hypothesis available for every child. *)
Section NodeInd.
Variable P : FileSystemNode -> Prop.
Hypothesis Hleaf :
  forall n d o p t s dt, P (mkNode n d o p t None s dt).
Hypothesis Hnode :
  forall n d o p t cs s dt, Forall P cs -> P (mkNode n d o p t (Some cs) s dt).

Fixpoint FileSystemNode_tree_ind (node : FileSystemNode) : P node :=
  match node with
  | mkNode n d o p t None s dt => Hleaf n d o p t s dt
  | mkNode n d o p t (Some cs) s dt =>
      Hnode n d o p t cs s dt
        ((fix all (l : list FileSystemNode) : Forall P l :=
            match l with
            | [] => @Forall_nil _ P
            | c :: r => @Forall_cons _ P c r (FileSystemNode_tree_ind c) (all r)
            end) cs)
  end.
End NodeInd.

(** ** Tree helpers *)

(** [node?.children?.filter(p) || []] *)
Definition childrenWhere (p : FileSystemNode -> bool) (node : FileSystemNode)
  : list FileSystemNode :=
  match children node with
  | Some cs => filter p cs
  | None => []
  end.

(** [countFoldersRecursively]: the folders among the children, plus the
    count of each of them.  The recursive calls run over the folder
    children; they are written over all children with the folder test
    inside, which is the form the termination checker follows
    ([countFoldersRecursively_eq] gives the source's form). *)
Fixpoint countFoldersRecursively (node : FileSystemNode) : nat :=
  match children node with
  | Some cs =>
      (List.length (filter isFolder cs)
       + list_sum (map (fun i => if isFolder i then countFoldersRecursively i else 0) cs))%nat
  | None => 0%nat
  end.

(** [countFilesRecursively]: the machinecode children, plus the count of each
    folder child ([countFilesRecursively_eq] gives the source's form). *)
Fixpoint countFilesRecursively (node : FileSystemNode) : nat :=
  match children node with
  | Some cs =>
      (List.length (filter isMachinecode cs)
       + list_sum (map (fun i => if isFolder i then countFilesRecursively i else 0) cs))%nat
  | None => 0%nat
  end.

(** The reference walk of the specification: the descendants of a node that
    are reachable through folder children, in depth-first order, and the
    number of them that have a given type. *)
Fixpoint descendants (node : FileSystemNode) : list FileSystemNode :=
  match children node with
  | Some cs => flat_map (fun c => c :: (if isFolder c then descendants c else [])) cs
  | None => []
  end.

Definition countDescendants (ty : string) (node : FileSystemNode) : nat :=
  List.length (filter (fun d => type d =? ty) (descendants node)).

(** ** [findFile] *)

Inductive PrinterType : Type := fdm | sla.

(** The loop of [findFile]: [target] is the node reached so far. *)
Fixpoint walkSegments (target : option FileSystemNode) (pathSegments : list string)
  : completion (option FileSystemNode) :=
  match pathSegments with
  | [] => Return target
  | segment :: rest =>
      match target with
      | None => Return None
      | Some t =>
          match children t with
          | None => Throw TypeError
          | Some cs => walkSegments (find (fun i => name i =? segment) cs) rest
          end
      end
  end.

(** The walk as the specification words it: a segment that has no matching
    child ends the walk with no target, also below a node without
    children. *)
Fixpoint walkSegmentsSpec (target : option FileSystemNode) (pathSegments : list string)
  : option FileSystemNode :=
  match pathSegments with
  | [] => target
  | segment :: rest =>
      match target with
      | None => None
      | Some t =>
          walkSegmentsSpec
            match children t with
            | Some cs => find (fun i => name i =? segment) cs
            | None => None
            end rest
      end
  end.

Definition pathSegmentsOf (printer : PrinterType) (path : string) : list string :=
  match printer with
  | fdm => slice1 (filter truthy_string (split "/" path))
  | sla => filter truthy_string (split "/" path)
  end.

(** [findFile(origin, path)] over [metadata.files]; [Return None] is the
    source's [null]. *)
Definition findFile (printer : PrinterType) (files : list FileSystemNode)
  (origin' path' : string) : completion (option FileSystemNode) :=
  if negb (truthy_string origin') || negb (truthy_string path') then Return None
  else
    let target := find (fun i => origin i =? origin') files in
    match walkSegments target (pathSegmentsOf printer path') with
    | Throw e => Throw e
    | Return target =>
        Return (match target with
                | Some t => if isMachinecode t then Some t else None
                | None => None
                end)
    end.

(** ** The sort comparator and [sortFiles] *)

(** [metadata.sort] *)
Record Sort : Type := mkSort { field : string; order : string }.

(** [x || 0] on a number that may be missing. *)
Definition orZero (x : option Z) : Z :=
  match x with
  | Some v => v
  | None => 0%Z
  end.

(** [String(x)] of an argument that may be missing: [localeCompare] compares
    with the string of its argument, which is ["undefined"] for a missing
    one. *)
Definition toStringArg (x : option string) : string :=
  match x with
  | Some s => s
  | None => "undefined"
  end.

(** [entry.display || entry.name], the label [redrawFiles] and [createFile]
    show for an entry. *)
Definition displayOrName (entry : FileSystemNode) : string :=
  match display entry with
  | Some d => if truthy_string d then d else name entry
  | None => name entry
  end.

(** [Array.prototype.sort(comparefn)]: a stable sort; [a] is placed before [b]
    when [comparefn(a, b) < 0] and elements that compare equal keep their
    order.  A call of [comparefn] that throws ends the sort with that
    exception, before the array is written: the comparisons run on a copy of
    the elements.  Which pairs are compared is left to the engine; the model
    compares as a stable insertion sort does.  When no pair of elements
    makes the comparator throw and the comparator is consistent, the result
    does not depend on that choice ([stableSort_unique]). *)
Section ArraySort.
Variable A : Type.
Variable comparefn : A -> A -> completion Z.

Fixpoint insertSorted (x : A) (l : list A) : completion (list A) :=
  match l with
  | [] => Return [x]
  | y :: r =>
      match comparefn x y with
      | Throw e => Throw e
      | Return c =>
          if (c <=? 0)%Z then Return (x :: y :: r)
          else
            match insertSorted x r with
            | Throw e => Throw e
            | Return r' => Return (y :: r')
            end
      end
  end.

Fixpoint Array_sort (l : list A) : completion (list A) :=
  match l with
  | [] => Return []
  | x :: r =>
      match Array_sort r with
      | Throw e => Throw e
      | Return sorted => insertSorted x sorted
      end
  end.

(** [comparefn(a, b)] returns, and lets [a] stand before [b]; [comparefn(a, b)]
    returns zero. *)
Definition notAfter (a b : A) : Prop :=
  match comparefn a b with
  | Return c => (c <= 0)%Z
  | Throw _ => False
  end.
Definition tie (a b : A) : bool :=
  match comparefn a b with
  | Return c => (c =? 0)%Z
  | Throw _ => false
  end.
End ArraySort.
Arguments insertSorted {A} comparefn x l.
Arguments Array_sort {A} comparefn l.
Arguments notAfter {A} comparefn a b.
Arguments tie {A} comparefn a b.

(** The stable insertion sort for a comparator that returns on every pair;
    [Array_sort] returns its result when no comparison throws
    ([Array_sort_returns]). *)
Section StableSort.
Variable A : Type.
Variable compare : A -> A -> Z.

Fixpoint insertOrdered (x : A) (l : list A) : list A :=
  match l with
  | [] => [x]
  | y :: r => if (compare x y <=? 0)%Z then x :: y :: r else y :: insertOrdered x r
  end.

Fixpoint stableSort (l : list A) : list A :=
  match l with
  | [] => []
  | x :: r => insertOrdered x (stableSort r)
  end.

Definition notAfterBy (a b : A) : Prop := (compare a b <= 0)%Z.
Definition tieBy (a b : A) : bool := (compare a b =? 0)%Z.
End StableSort.
Arguments insertOrdered {A} compare x l.
Arguments stableSort {A} compare l.
Arguments notAfterBy {A} compare a b.
Arguments tieBy {A} compare a b.

Section SortFiles.
(** [String.prototype.localeCompare], which depends on the locale of the
    browser: negative, zero or positive. *)
Variable localeCompare : string -> string -> Z.

(** [compareFiles], the closure of [sortFiles] over [metadata.sort].  The
    last case reads [f1.display.localeCompare]: a [TypeError] when [f1] has
    no [display]. *)
Definition compareFiles (sort : Sort) (f1 f2 : FileSystemNode) : completion Z :=
  if isFolder f1 && negb (isFolder f2) then Return (-1)%Z
  else if negb (isFolder f1) && isFolder f2 then Return 1%Z
  else
    let order := if order sort =? "desc" then (-1)%Z else 1%Z in
    if field sort =? "date" then
      let ts1 := orZero (date f1) in
      let ts2 := orZero (date f2) in
      Return (order * (ts1 - ts2))%Z
    else if field sort =? "size" then
      let s1 := orZero (size f1) in
      let s2 := orZero (size f2) in
      Return (order * (s1 - s2))%Z
    else
      match display f1 with
      | None => Throw TypeError
      | Some display1 =>
          Return (order * localeCompare display1 (toStringArg (display f2)))%Z
      end.

(** [sortFiles(files)]: sorts the array in place and returns it. *)
Definition sortFiles (sort : Sort) (files : list FileSystemNode)
  : completion (list FileSystemNode) :=
  Array_sort (compareFiles sort) files.

(** The number [compareFiles] returns when it returns
    ([compareFiles_returns]), as a function of every pair of entries: the
    display name of [f1] is read as that of [f2] is. *)
Definition compareFilesValue (sort : Sort) (f1 f2 : FileSystemNode) : Z :=
  if isFolder f1 && negb (isFolder f2) then (-1)%Z
  else if negb (isFolder f1) && isFolder f2 then 1%Z
  else
    let order := if order sort =? "desc" then (-1)%Z else 1%Z in
    if field sort =? "date" then (order * (orZero (date f1) - orZero (date f2)))%Z
    else if field sort =? "size" then (order * (orZero (size f1) - orZero (size f2)))%Z
    else (order * localeCompare (toStringArg (display f1)) (toStringArg (display f2)))%Z.

(** The sort field makes [compareFiles] read the display names. *)
Definition readsDisplay (sort : Sort) : bool :=
  negb (field sort =? "date") && negb (field sort =? "size").

(** No comparison of two entries of [files] reads a display name that is
    missing. *)
Definition displayed (sort : Sort) (files : list FileSystemNode) : Prop :=
  readsDisplay sort = true -> Forall (fun f => display f <> None) files.

(** What the specification asks of two entries of the same kind when [f1]
    stands before [f2].  Two numbers that may be missing are in ascending
    order, a missing one counting as zero; two display names are in
    ascending order in the locale. *)
Definition ascendingNumbers (a b : option Z) : Prop :=
  match a, b with
  | Some x, Some y => (x <= y)%Z
  | Some x, None => (x <= 0)%Z
  | None, Some y => (0 <= y)%Z
  | None, None => True
  end.

Definition ascendingNames (a b : option string) : Prop :=
  match a, b with
  | Some x, Some y => (localeCompare x y <= 0)%Z
  | _, _ => False
  end.

(** In order by date, size or display name as the sort field says,
    ascending unless the order is ["desc"]. *)
Definition orderedByField (sort : Sort) (f1 f2 : FileSystemNode) : Prop :=
  let '(lower, upper) := if order sort =? "desc" then (f2, f1) else (f1, f2) in
  if field sort =? "date" then ascendingNumbers (date lower) (date upper)
  else if field sort =? "size" then ascendingNumbers (size lower) (size upper)
  else ascendingNames (display lower) (display upper).
End SortFiles.

(** A concrete [localeCompare]: the order of the code units. *)
Definition codeUnitCompare (a b : string) : Z :=
  match String.compare a b with
  | Eq => 0%Z
  | Lt => (-1)%Z
  | Gt => 1%Z
  end.

(** ** The metadata store *)

(** [STORAGE_TYPES]: the types a storage entry has, which are the keys of
    [metadata.storages]. *)
Inductive StorageType : Type := LOCAL | USB | SDCARD.

Definition StorageType_eqb (a b : StorageType) : bool :=
  match a, b with
  | LOCAL, LOCAL | USB, USB | SDCARD, SDCARD => true
  | _, _ => false
  end.

Definition StorageType_toString (t : StorageType) : string :=
  match t with
  | LOCAL => "LOCAL"
  | USB => "USB"
  | SDCARD => "SDCARD"
  end.

(** The values [metadata.origin] takes: [null] initially, [false] once the
    selected storage went away, or the type of the selected storage. *)
Inductive Origin : Type :=
| ONull
| OFalse
| OStorage (t : StorageType).

(** [!metadata.origin] *)
Definition originFalsy (o : Origin) : bool :=
  match o with
  | OStorage _ => false
  | _ => true
  end.

(** [metadata.origin === storageType] *)
Definition originIs (o : Origin) (t : StorageType) : bool :=
  match o with
  | OStorage t' => StorageType_eqb t' t
  | _ => false
  end.

(** The string an origin contributes to a joined path. *)
Definition Origin_toString (o : Origin) : string :=
  match o with
  | ONull => EmptyString
  | OFalse => "false"
  | OStorage t => StorageType_toString t
  end.

(** The values of an ETag: [null] (no header, or discarded), [undefined]
    (no such property), or the token. *)
Inductive ETag : Type :=
| ENull
| EUndefined
| EToken (s : string).

(** [e1 === e2] *)
Definition ETag_eqb (e1 e2 : ETag) : bool :=
  match e1, e2 with
  | ENull, ENull => true
  | EUndefined, EUndefined => true
  | EToken a, EToken b => a =? b
  | _, _ => false
  end.

(** An entry of [storage_list] in the response of [/api/v1/storage]. *)
Module Entry.
Record t : Type := mk {
  type : StorageType;
  name : string;
  path : string;
  available : bool;
  ro : bool;
  free_space : Z;
  total_space : Z
}.
End Entry.

(** [storageData], a value of [metadata.storages]. *)
Module StorageData.
Record t : Type := mk {
  name : string;
  path : string;
  available : bool;
  readOnly : bool;
  freeSpace : Z;
  totalSpace : Z
}.
End StorageData.

(** [metadata.storages]: an object used as a map from storage type to
    [storageData].  [Object.keys] lists string keys in the order of their
    first insertion, so the map is an association list in that order:
    an assignment to an existing key keeps its place, a new key goes last. *)
Definition Storages : Type := list (StorageType * StorageData.t).

(** [metadata.storages[k]] *)
Fixpoint storagesGet (k : StorageType) (m : Storages) : option StorageData.t :=
  match m with
  | [] => None
  | (k', v) :: r => if StorageType_eqb k' k then Some v else storagesGet k r
  end.

(** [metadata.storages[k] = v] *)
Fixpoint storagesSet (k : StorageType) (v : StorageData.t) (m : Storages) : Storages :=
  match m with
  | [] => [(k, v)]
  | (k', v') :: r =>
      if StorageType_eqb k' k then (k, v) :: r else (k', v') :: storagesSet k v r
  end.

(** [Object.keys(metadata.storages)] *)
Definition Object_keys (m : Storages) : list StorageType := map fst m.

(** [Object.keys(m).find((storage) => m[storage].available)] *)
Definition firstAvailable (m : Storages) : option StorageType :=
  find (fun storage =>
          match storagesGet storage m with
          | Some s => StorageData.available s
          | None => false
          end)
       (Object_keys m).

(** [storageData] of an entry of the response. *)
Definition storageDataOf (entry : Entry.t) : StorageData.t :=
  StorageData.mk (Entry.name entry) (Entry.path entry) (Entry.available entry)
    (Entry.ro entry) (Entry.free_space entry) (Entry.total_space entry).

(** The cached map after the entries of a response were assigned to it, one
    after the other. *)
Definition mergeStorageList (list : option (list Entry.t)) (m : Storages) : Storages :=
  match list with
  | Some l =>
      fold_left (fun m entry => storagesSet (Entry.type entry) (storageDataOf entry) m) l m
  | None => m
  end.

(** The first entry of a response, in the order of its list, that is
    available. *)
Definition firstAvailableEntry (l : list Entry.t) : option StorageType :=
  option_map Entry.type (find Entry.available l).

(** [metadata.storages[metadata.origin]]: [null] and [false] name no key. *)
Definition storagesGetOrigin (o : Origin) (m : Storages) : option StorageData.t :=
  match o with
  | OStorage t => storagesGet t m
  | _ => None
  end.

(** The file context [metadata]. *)
Module metadata.
Record t : Type := mk {
  origin : Origin;
  current_path : list string;
  storages : Storages;
  files : list FileSystemNode;
  eTag : ETag;
  sort : Sort
}.

Definition set_origin (o : Origin) (md : t) : t :=
  mk o (current_path md) (storages md) (files md) (eTag md) (sort md).
Definition set_current_path (p : list string) (md : t) : t :=
  mk (origin md) p (storages md) (files md) (eTag md) (sort md).
Definition set_storages (s : Storages) (md : t) : t :=
  mk (origin md) (current_path md) s (files md) (eTag md) (sort md).
Definition set_files (f : list FileSystemNode) (md : t) : t :=
  mk (origin md) (current_path md) (storages md) f (eTag md) (sort md).
Definition set_eTag (e : ETag) (md : t) : t :=
  mk (origin md) (current_path md) (storages md) (files md) e (sort md).
Definition set_sort (s : Sort) (md : t) : t :=
  mk (origin md) (current_path md) (storages md) (files md) (eTag md) s.

(** The object literal the module starts with; [nameSortingOnly] is
    [process.env["WITH_NAME_SORTING_ONLY"]]. *)
Definition initial (nameSortingOnly : bool) : t :=
  mk ONull [] [] [] ENull
    (if nameSortingOnly then mkSort "name" "asc" else mkSort "date" "desc").
End metadata.

(** The selected origin is unset, or names a cached storage that is
    available. *)
Definition originAvailable (md : metadata.t) : bool :=
  match metadata.origin md with
  | OStorage t =>
      match storagesGet t (metadata.storages md) with
      | Some s => StorageData.available s
      | None => false
      end
  | _ => true
  end.

(** The writes of one turn of the loop of [updateStorage] to [metadata]:
    [clearsOrigin] is the test under which the selected origin is set to
    [false], [afterEntry] the file context after the turn, [afterList] after
    the whole loop. *)
Definition clearsOrigin (entry : Entry.t) (md : metadata.t) : bool :=
  match storagesGet (Entry.type entry) (metadata.storages md) with
  | Some storage =>
      negb (Bool.eqb (StorageData.available storage) (Entry.available entry))
      && (originIs (metadata.origin md) (Entry.type entry)
          && negb (Entry.available entry))
  | None => false
  end.

Definition afterEntry (md : metadata.t) (entry : Entry.t) : metadata.t :=
  let md1 := if clearsOrigin entry md then metadata.set_origin OFalse md else md in
  metadata.set_storages
    (storagesSet (Entry.type entry) (storageDataOf entry) (metadata.storages md1)) md1.

Definition afterList (list : option (list Entry.t)) (md : metadata.t) : metadata.t :=
  match list with
  | Some l => fold_left afterEntry l md
  | None => md
  end.

(** The response of the file listing: [result.eTag] and [result.data], whose
    [files] is the listing; [data] is absent on a response without a body. *)
Module FilesResult.
Record t : Type := mk {
  eTag : ETag;
  data : option (list FileSystemNode)
}.
End FilesResult.

(** The calls that leave the module. *)
Inductive Event : Type :=
| EvClearFiles
| EvRedrawFiles
| EvInitUpload
| EvGetJson (url : string) (ifNoneMatch : option ETag)
| EvStorageUpdate (storages : Storages) (origin : Origin) (redrawStorageDetails : bool).

(** ** The monad of the handlers: state, log of calls, exceptions *)

Definition M (A : Type) : Type :=
  metadata.t -> completion A * metadata.t * list Event.

Definition ret {A : Type} (a : A) : M A := fun md => (Return a, md, []).

Definition bind {A B : Type} (m : M A) (k : A -> M B) : M B :=
  fun md =>
    match m md with
    | (Return a, md1, log1) =>
        match k a md1 with
        | (r, md2, log2) => (r, md2, log1 ++ log2)
        end
    | (Throw e, md1, log1) => (Throw e, md1, log1)
    end.

Definition get : M metadata.t := fun md => (Return md, md, []).
Definition modify (f : metadata.t -> metadata.t) : M unit :=
  fun md => (Return tt, f md, []).
Definition emit (e : Event) : M unit := fun md => (Return tt, md, [e]).
Definition throw {A : Type} (e : exn) : M A := fun md => (Throw e, md, []).

Declare Scope js_scope.
Delimit Scope js_scope with js.
Notation "x <- m ;; k" := (bind m (fun x => k))
  (at level 61, m at next level, right associativity) : js_scope.
Notation "m ;; k" := (bind m (fun _ => k))
  (at level 61, right associativity) : js_scope.
Local Open Scope js_scope.

(** The metadata after a handler ran, and the calls it made. *)
Definition exec {A : Type} (m : M A) (md : metadata.t) : metadata.t := snd (fst (m md)).
Definition calls {A : Type} (m : M A) (md : metadata.t) : list Event := snd (m md).
Definition outcome {A : Type} (m : M A) (md : metadata.t) : completion A := fst (fst (m md)).

(** A loop over an array that carries the local variables [acc]. *)
Fixpoint forEach {A S : Type} (body : A -> S -> M S) (l : list A) (acc : S) : M S :=
  match l with
  | [] => ret acc
  | x :: r => acc' <- body x acc ;; forEach body r acc'
  end.

(** ** The handlers of the files page *)

(** [String.prototype.replace] of the first slash by the empty string. *)
Fixpoint dropFirstSlash (s : string) : string :=
  match s with
  | EmptyString => EmptyString
  | String c rest => if Ascii.eqb c "/" then rest else String c (dropFirstSlash rest)
  end.

Section Handlers.
Variable localeCompare : string -> string -> Z.
(** [process.env.PRINTER_TYPE] and [process.env["WITH_NAME_SORTING_ONLY"]] *)
Variable printer : PrinterType.
Variable nameSortingOnly : bool.

(** [clearFiles()]: rebuilds the header of the DOM list; no write to
    [metadata]. *)
Definition clearFiles : M unit := emit EvClearFiles.

(** [redrawFiles()]: when the DOM list [filesNode] exists, one element per
    entry of [sortFiles(metadata.files)], which sorts [metadata.files] in
    place.  When the sort throws, [metadata.files] is as it was and
    [redrawFiles] ends with the exception. *)
Definition redrawFiles (filesNode : bool) : M unit :=
  emit EvRedrawFiles ;;
  if filesNode then
    md <- get ;;
    match sortFiles localeCompare (metadata.sort md) (metadata.files md) with
    | Return sorted => modify (metadata.set_files sorted)
    | Throw e => throw e
    end
  else ret tt.

(** [initUpload(context)]: configures the upload widget. *)
Definition initUpload : M unit := emit EvInitUpload.

(** The URL of the listing: the name of the storage, then the current
    path without its first segment. *)
Definition filesUrl (storage : StorageData.t) (current_path : list string) : string :=
  let path := join "/" (StorageData.name storage :: slice1 current_path) in
  String.append "/api/files/path/" path.

(** [updateFiles(opts)] up to the request; [force] is [opts.force].  The
    first test of the source, [!selectStorage], is on the function of that
    name and never holds.  The value returned is the [lastETag] captured
    by the callback the request registers, [None] when no request is
    made. *)
Definition updateFiles (force : bool) : M (option ETag) :=
  md <- get ;;
  let selectedStorage := metadata.origin md in
  match storagesGetOrigin selectedStorage (metadata.storages md) with
  | None => ret None
  | Some storage =>
      let url := filesUrl storage (metadata.current_path md) in
      lastETag <-
        (if force then
           modify (metadata.set_eTag ENull) ;;
           initUpload ;;
           ret ENull
         else ret (metadata.eTag md)) ;;
      emit (EvGetJson url (Some lastETag)) ;;
      ret (Some lastETag)
  end.

(** The [.then] callback of [updateFiles], with the [lastETag] its closure
    captured. *)
Definition updateFiles_then (filesNode : bool) (lastETag : ETag)
  (result : FilesResult.t) : M unit :=
  let eTag := FilesResult.eTag result in
  if negb (ETag_eqb eTag lastETag) then
    modify (metadata.set_eTag eTag) ;;
    match FilesResult.data result with
    | None => throw TypeError
    | Some files =>
        modify (metadata.set_files files) ;;
        clearFiles ;;
        redrawFiles filesNode
    end
  else ret tt.

(** [selectStorage(origin)]; the match is the test
    [origin in metadata.storages] and the read that follows it. *)
Definition selectStorage (origin : StorageType) : M unit :=
  clearFiles ;;
  md <- get ;;
  match storagesGet origin (metadata.storages md) with
  | Some storage =>
      if StorageData.available storage then
        modify (metadata.set_origin (OStorage origin)) ;;
        modify (metadata.set_current_path [StorageData.name storage]) ;;
        clearFiles ;;
        updateFiles true ;;
        ret tt
      else ret tt
  | None => ret tt
  end.

(** The body of [list.forEach] in [updateStorage]; the pair is the local
    variables [(redrawTabs, redrawStorageDetails)], the match is the test
    [storageType in metadata.storages] and the read that follows it. *)
Definition updateStorageEntry (entry : Entry.t) (flags : bool * bool)
  : M (bool * bool) :=
  let '(redrawTabs, redrawStorageDetails) := flags in
  let storageType := Entry.type entry in
  let storageData := storageDataOf entry in
  md <- get ;;
  flags' <-
    match storagesGet storageType (metadata.storages md) with
    | Some storage =>
        redrawTabs' <-
          (if negb (Bool.eqb (StorageData.available storage)
                      (StorageData.available storageData)) then
             (if originIs (metadata.origin md) storageType
                 && negb (StorageData.available storageData)
              then modify (metadata.set_origin OFalse)
              else ret tt) ;;
             ret true
           else ret redrawTabs) ;;
        md' <- get ;;
        if negb (StorageData.freeSpace storage =? StorageData.freeSpace storageData)%Z
           && originIs (metadata.origin md') storageType
        then ret (redrawTabs', true)
        else ret (redrawTabs', redrawStorageDetails)
    | None => ret (true, true)
    end ;;
  modify (fun md => metadata.set_storages
                      (storagesSet storageType storageData (metadata.storages md)) md) ;;
  ret flags'.

(** The loop over [storage_list], when the response has one. *)
Definition updateStorageList (redraw : bool) (list : option (list Entry.t))
  : M (bool * bool) :=
  match list with
  | Some l => forEach updateStorageEntry l (redraw, redraw)
  | None => ret (redraw, redraw)
  end.

(** The default selection, when no origin is selected. *)
Definition selectDefaultStorage : M unit :=
  md <- get ;;
  if originFalsy (metadata.origin md) then
    match firstAvailable (metadata.storages md) with
    | Some storage => selectStorage storage
    | None => ret tt
    end
  else ret tt.

(** The [.then] callback of [updateStorage]; [redraw] is [!!opts.redraw],
    [list] is [result.data?.storage_list]. *)
Definition updateStorage_then (redraw : bool) (list : option (list Entry.t))
  : M unit :=
  flags <- updateStorageList redraw list ;;
  let '(redrawTabs, redrawStorageDetails) := flags in
  selectDefaultStorage ;;
  if redrawTabs then
    md <- get ;;
    emit (EvStorageUpdate (metadata.storages md) (metadata.origin md)
            redrawStorageDetails)
  else ret tt.

(** [updateStorage(opts)] up to the request. *)
Definition updateStorage : M unit := emit (EvGetJson "/api/v1/storage" None).

(** [update(context)] and [load(context)], as far as they touch the file
    context. *)
Definition update : M unit := updateStorage ;; updateFiles false ;; ret tt.

Definition load : M unit :=
  modify (metadata.set_eTag ENull) ;;
  updateStorage ;;
  updateFiles false ;;
  ret tt.

(** The click on a folder ([createNodeFolder], whose [origin] argument is
    not passed by [redrawFiles]). *)
Definition onClickFolder (path : string) : M unit :=
  md <- get ;;
  modify (metadata.set_current_path
            match printer with
            | sla => Origin_toString (metadata.origin md)
                       :: filter truthy_string (split "/" path)
            | fdm => metadata.current_path md ++ [dropFirstSlash path]
            end) ;;
  clearFiles ;;
  updateFiles true ;;
  ret tt.

(** The click on the "up" entry ([createUp]). *)
Definition onClickUp : M unit :=
  modify (fun md => metadata.set_current_path (removelast (metadata.current_path md)) md) ;;
  clearFiles ;;
  updateFiles true ;;
  ret tt.

(** The click on a sort toggle ([createCurrent]). *)
Definition onClickSort (field' : string) : M unit :=
  md <- get ;;
  let order' :=
    if field (metadata.sort md) =? field'
    then (if order (metadata.sort md) =? "asc" then "desc" else "asc")
    else "asc" in
  modify (metadata.set_sort (mkSort field' order')) ;;
  clearFiles ;;
  redrawFiles true.

(** The handlers that run on the event loop, each to completion. *)
Inductive Handler : Type :=
| HLoad
| HUpdate
| HUpdateStorageThen (redraw : bool) (list : option (list Entry.t))
| HUpdateFilesThen (filesNode : bool) (lastETag : ETag) (result : FilesResult.t)
| HSelectStorage (origin : StorageType)
| HClickFolder (path : string)
| HClickUp
| HClickSort (field' : string).

Definition runHandler (h : Handler) : M unit :=
  match h with
  | HLoad => load
  | HUpdate => update
  | HUpdateStorageThen redraw list => updateStorage_then redraw list
  | HUpdateFilesThen filesNode lastETag result => updateFiles_then filesNode lastETag result
  | HSelectStorage origin => selectStorage origin
  | HClickFolder path => onClickFolder path
  | HClickUp => onClickUp
  | HClickSort field' => onClickSort field'
  end.

(** The states of [metadata] a run of the page goes through. *)
Inductive reachable : metadata.t -> Prop :=
| reachable_initial : reachable (metadata.initial nameSortingOnly)
| reachable_step : forall md h,
    reachable md -> reachable (exec (runHandler h) md).
End Handlers.

(** ** The direct upload widget ([upload/direct.js]) *)

Module Direct.
(** The [File] the input holds; [display] is not a property of a browser
    [File], it is read as [file.display || file.name]. *)
Record File : Type := mkFile { name : string; display : option string }.

(** [file.display || file.name] *)
Definition fileName (file : File) : string :=
  match display file with
  | Some d => if truthy_string d then d else name file
  | None => name file
  end.

(** The error object a failed request is rejected with. *)
Record ErrorResult : Type := mkErrorResult { code : Z }.

(** How [uploadRequest] settles; a rejection may carry no result. *)
Inductive Settlement : Type :=
| Fulfilled
| Rejected (result : option ErrorResult).

(** What [uploadFile] was called with, kept by its pending promise. *)
Record Upload : Type := mkUpload { file : File; url : string; print : bool }.

(** The calls that leave the module. *)
Inductive Effect : Type :=
| uploadRequest (url : string) (print : bool)
| success (title message : string)
| error (title message : string)
| handleError (result : ErrorResult).

(** The module variables [isUploading] and [progress], the DOM the module
    writes ([widget]: the [data-state] attribute of [#upld-direct],
    [progressEl]: the percentage shown in [#upld-progress], [inputValue]:
    the value of the file input; each [None] when the element is not in
    the document), the closure bound to [input.onchange], the promises
    that are pending, and the calls made so far. *)
Record State : Type := mkState {
  isUploading : bool;
  progress : Z;
  widget : option string;
  progressEl : option Z;
  inputValue : option string;
  onchange : option (string * string);
  reading : list Upload;
  inFlight : list Upload;
  effects : list Effect
}.

Definition initialState (widget' : option string) (progressEl' : option Z)
  (inputValue' : option string) : State :=
  mkState false 0 widget' progressEl' inputValue' None [] [] [].

Section Widget.
(** [translate(key, {file_name})] of the locale provider. *)
Variable translate : string -> option string -> string.

Definition setState (state : string) (st : State) : State :=
  mkState (state =? "uploading") (progress st)
    (match widget st with Some _ => Some state | None => None end)
    (progressEl st) (inputValue st) (onchange st) (reading st) (inFlight st)
    (effects st).

Definition setProgress (pct : Z) (st : State) : State :=
  mkState (isUploading st) pct (widget st)
    (match progressEl st with Some _ => Some pct | None => None end)
    (inputValue st) (onchange st) (reading st) (inFlight st) (effects st).

Definition reset (st : State) : State :=
  let st1 :=
    mkState (isUploading st) (progress st) (widget st) (progressEl st)
      (match inputValue st with Some _ => Some EmptyString | None => None end)
      (onchange st) (reading st) (inFlight st) (effects st) in
  setState "choose" (setProgress 0 st1).

Definition call (e : Effect) (st : State) : State :=
  mkState (isUploading st) (progress st) (widget st) (progressEl st)
    (inputValue st) (onchange st) (reading st) (inFlight st) (effects st ++ [e]).

Definition onProgressChanged (pct : Z) (st : State) : State :=
  setProgress pct (setState "uploading" st).

Definition onUploadSuccess (fileName' : string) (st : State) : State :=
  let title := translate "ntf.success" None in
  let message := translate "ntf.upld-suc" (Some fileName') in
  call (success title message) st.

Definition onUploadError (fileName' : string) (result : option ErrorResult)
  (st : State) : State :=
  match result with
  | Some r => call (handleError r) st
  | None =>
      let title := translate "ntf.error" None in
      let message := translate "ntf.upld-unsuc" (Some fileName') in
      call (error title message) st
  end.

(** [uploadFile] up to [file.arrayBuffer()], whose promise is pending. *)
Definition uploadFile (file' : File) (origin path : string) (print' : bool)
  (st : State) : State :=
  let url' :=
    String.append "/api/v1/files/"
      (String.append origin
         (String.append "/" (String.append path (String.append "/" (name file'))))) in
  mkState (isUploading st) (progress st) (widget st) (progressEl st)
    (inputValue st) (onchange st) (reading st ++ [mkUpload file' url' print'])
    (inFlight st) (effects st).

(** The callback of [file.arrayBuffer()]: the request starts. *)
Definition arrayBuffer_then (u : Upload) (st : State) : State :=
  let st1 := setProgress 0 (setState "uploading" st) in
  let st2 := call (uploadRequest (url u) (print u)) st1 in
  mkState (isUploading st2) (progress st2) (widget st2) (progressEl st2)
    (inputValue st2) (onchange st2) (reading st2) (inFlight st2 ++ [u])
    (effects st2).

(** The [.then], [.catch] and [.finally] callbacks of the request. *)
Definition uploadRequest_settled (u : Upload) (s : Settlement) (st : State) : State :=
  let st1 :=
    match s with
    | Fulfilled => onUploadSuccess (fileName (file u)) st
    | Rejected result => onUploadError (fileName (file u)) result st
    end in
  reset st1.

(** [input.onchange], bound by [initInput(origin, path, fileExtensions)];
    [checked] is [startPtCheckbox?.checked]. *)
Definition input_onchange (origin path : string) (files : list File)
  (checked : option bool) (st : State) : State :=
  match files with
  | file' :: _ =>
      if negb (isUploading st) then
        let print' := match checked with Some true => true | _ => false end in
        uploadFile file' origin path print' st
      else st
  | [] => st
  end.

Definition initInput (origin path : string) (st : State) : State :=
  match inputValue st with
  | Some _ =>
      mkState (isUploading st) (progress st) (widget st) (progressEl st)
        (inputValue st) (Some (origin, path)) (reading st) (inFlight st)
        (effects st)
  | None => st
  end.

(** [init(origin, path, fileExtensions)]; the label it translates is not
    read back. *)
Definition init (origin path : string) (st : State) : State :=
  let st1 := initInput origin path st in
  if isUploading st1 then setProgress (progress st1) (setState "uploading" st1)
  else st1.

(** What the event loop delivers to the widget. *)
Inductive Input : Type :=
| Init (origin path : string)
| Change (files : list File) (checked : option bool)
| ArrayBufferRead (i : nat)
| Progress (i : nat) (pct : Z)
| Settled (i : nat) (s : Settlement).

(** The list without its element at index [i]. *)
Fixpoint removeAt {A : Type} (i : nat) (l : list A) : list A :=
  match l, i with
  | [], _ => []
  | _ :: r, O => r
  | x :: r, S j => x :: removeAt j r
  end.

Definition setReading (r : list Upload) (st : State) : State :=
  mkState (isUploading st) (progress st) (widget st) (progressEl st)
    (inputValue st) (onchange st) r (inFlight st) (effects st).

Definition setInFlight (r : list Upload) (st : State) : State :=
  mkState (isUploading st) (progress st) (widget st) (progressEl st)
    (inputValue st) (onchange st) (reading st) r (effects st).

(** One turn of the event loop; an event for a promise that is not
    pending does not happen. *)
Definition step (st : State) (i : Input) : State :=
  match i with
  | Init origin path => init origin path st
  | Change files checked =>
      match onchange st with
      | Some (origin, path) => input_onchange origin path files checked st
      | None => st
      end
  | ArrayBufferRead n =>
      match nth_error (reading st) n with
      | Some u => arrayBuffer_then u (setReading (removeAt n (reading st)) st)
      | None => st
      end
  | Progress n pct =>
      match nth_error (inFlight st) n with
      | Some _ => onProgressChanged pct st
      | None => st
      end
  | Settled n s =>
      match nth_error (inFlight st) n with
      | Some u => uploadRequest_settled u s (setInFlight (removeAt n (inFlight st)) st)
      | None => st
      end
  end.

Definition run (st : State) (inputs : list Input) : State :=
  fold_left step inputs st.

(** At most one file is being read or uploaded, and [isUploading] is set
    while a request is in flight. *)
Definition oneAtATime (st : State) : Prop :=
  (List.length (reading st) + List.length (inFlight st) <= 1)%nat
  /\ (inFlight st <> [] -> isUploading st = true).
End Widget.
End Direct.

(** ** Fixtures *)

(** A storage root with one file. *)
Definition leafFile : FileSystemNode :=
  mkNode "a.gcode" (Some "a.gcode") "local" "/local/a.gcode" "machinecode" None
    (Some 10%Z) (Some 5%Z).

Definition rootWithLeaf : FileSystemNode :=
  mkNode "local" (Some "Local") "local" "/local" "folder" (Some [leafFile]) None None.

(** A listing of two files and two folders. *)
Definition fileNamed (n : string) (sz dt : Z) : FileSystemNode :=
  mkNode n (Some n) "local" (String.append "/local/" n) "machinecode" None (Some sz)
    (Some dt).

Definition folderNamed (n : string) (cs : list FileSystemNode) : FileSystemNode :=
  mkNode n (Some n) "local" (String.append "/local/" n) "folder" (Some cs) None None.

Definition listing : list FileSystemNode :=
  [fileNamed "b.gcode" 30 2; folderNamed "parts" [leafFile]; fileNamed "a.gcode" 20 2;
   folderNamed "archive" []].

(** A file whose entry has no [display], and a listing of two of them. *)
Definition fileWithoutDisplay (n : string) (sz dt : Z) : FileSystemNode :=
  mkNode n None "local" (String.append "/local/" n) "machinecode" None (Some sz)
    (Some dt).

Definition listingWithoutDisplay : list FileSystemNode :=
  [fileWithoutDisplay "b.gcode" 30 2; fileWithoutDisplay "a.gcode" 20 1].

(** Storage entries of a response: the local storage and a USB drive, each
    present or away. *)
Definition localEntry (available : bool) : Entry.t :=
  Entry.mk LOCAL "PrusaLink gcodes" "/local" available false 1000 2000.

Definition usbEntry (available : bool) : Entry.t :=
  Entry.mk USB "usb" "/usb" available false 500 4000.

(** A file context with the local storage selected and a token seen. *)
Definition browsingLocal : metadata.t :=
  metadata.mk (OStorage LOCAL) ["PrusaLink gcodes"]
    [(LOCAL, storageDataOf (localEntry true)); (USB, storageDataOf (usbEntry false))]
    [] (EToken "etag-1") (mkSort "date" "desc").

(** The upload widget as the page shows it, two files, and the labels of a
    locale that shows the keys. *)
Definition widgetAtLoad : Direct.State :=
  Direct.initialState (Some "choose") (Some 0%Z) (Some EmptyString).

Definition fileA : Direct.File := Direct.mkFile "a.gcode" None.
Definition fileB : Direct.File := Direct.mkFile "b.gcode" None.

Definition translateKey (key : string) (file_name : option string) : string :=
  match file_name with
  | Some n => String.append key (String.append ": " n)
  | None => key
  end.

(** The file input changes twice before the first file is read. *)
Definition twoChanges : list Direct.Input :=
  [Direct.Init "local" EmptyString; Direct.Change [fileA] (Some false);
   Direct.Change [fileB] (Some true);
   Direct.ArrayBufferRead 0; Direct.ArrayBufferRead 0].

(** ** More of the files page *)

(** [getInitialMetadataFiles(data)] on [data.files]: the listing itself for
    printer type fdm, otherwise the listing grouped under a root per
    origin. *)
Definition getInitialMetadataFiles (printer : PrinterType)
  (files : list FileSystemNode) : list FileSystemNode :=
  match printer with
  | fdm => files
  | sla =>
      let local :=
        mkNode "local" (Some "Local") "local" "/local" "folder"
          (Some (filter (fun elm => origin elm =? "local") files)) None None in
      let usb_files := filter (fun elm => origin elm =? "usb") files in
      if (0 <? List.length usb_files)%nat then
        [local; mkNode "usb" (Some "USB") "usb" "/usb" "folder" (Some usb_files) None None]
      else [local]
  end.

(** The children of a list of roots, root after root. *)
Definition childrenOfAll (roots : list FileSystemNode) : list FileSystemNode :=
  flat_map (childrenWhere (fun _ => true)) roots.

(** The sort order is one of the two the toggles know. *)
Definition sortOrderKnown (md : metadata.t) : Prop :=
  order (metadata.sort md) = "asc" \/ order (metadata.sort md) = "desc".

(** The local variables [(redrawTabs, redrawStorageDetails)] after one turn
    of the loop of [updateStorage], and after the whole loop. *)
Definition entryFlags (entry : Entry.t) (flags : bool * bool) (md : metadata.t)
  : bool * bool :=
  match storagesGet (Entry.type entry) (metadata.storages md) with
  | Some storage =>
      let redrawTabs' :=
        if negb (Bool.eqb (StorageData.available storage) (Entry.available entry))
        then true else fst flags in
      let md' := if clearsOrigin entry md then metadata.set_origin OFalse md else md in
      if negb (StorageData.freeSpace storage =? Entry.free_space entry)%Z
         && originIs (metadata.origin md') (Entry.type entry)
      then (redrawTabs', true)
      else (redrawTabs', snd flags)
  | None => (true, true)
  end.

Fixpoint listFlags (l : list Entry.t) (flags : bool * bool) (md : metadata.t)
  : bool * bool :=
  match l with
  | [] => flags
  | entry :: r => listFlags r (entryFlags entry flags md) (afterEntry md entry)
  end.

(** An entry reports a storage that is not cached, or cached with another
    availability. *)
Definition tabsChange (md : metadata.t) (entry : Entry.t) : bool :=
  match storagesGet (Entry.type entry) (metadata.storages md) with
  | Some storage =>
      negb (Bool.eqb (StorageData.available storage) (Entry.available entry))
  | None => true
  end.

(** The last entry of a response for a storage type. *)
Definition lastEntryOf (t : StorageType) (l : list Entry.t) : option Entry.t :=
  find (fun entry => StorageType_eqb (Entry.type entry) t) (rev l).

(** The file of the job preview that [load] reads from the job component:
    its [origin], its [path] and the [data] that [load] compares the date of
    the file with. *)
Module PreviewFile.
Record t : Type := mk {
  origin : string;
  path : string;
  data : option Z
}.
End PreviewFile.

(** What [load] asks of the job component: nothing, or
    [job.selectFilePreview(file)] with a file or [null]. *)
Inductive PreviewAction : Type :=
| KeepPreview
| SelectFilePreview (file : option FileSystemNode).

(** [a > b] on numbers that may be missing: false when one is. *)
Definition gtNumber (a b : option Z) : bool :=
  match a, b with
  | Some x, Some y => (y <? x)%Z
  | _, _ => false
  end.

Section LoadPage.
Variable printer : PrinterType.

(** The part of [load] on the preview; [previewFile] is
    [job.getPreviewFile()]. *)
Definition loadPreview (previewFile : option PreviewFile.t) : M PreviewAction :=
  match previewFile with
  | None => ret KeepPreview
  | Some previewFile =>
      md <- get ;;
      match findFile printer (metadata.files md)
              (PreviewFile.origin previewFile) (PreviewFile.path previewFile) with
      | Throw e => throw e
      | Return None => ret (SelectFilePreview None)
      | Return (Some file) =>
          if gtNumber (date file) (PreviewFile.data previewFile)
          then ret (SelectFilePreview (Some file))
          else ret KeepPreview
      end
  end.

(** [load(context)] with its part on the preview: the ETag is dropped, the
    preview is checked, then the storage and the listing are requested. *)
Definition loadPage (previewFile : option PreviewFile.t) : M PreviewAction :=
  modify (metadata.set_eTag ENull) ;;
  action <- loadPreview previewFile ;;
  updateStorage ;;
  updateFiles false ;;
  ret action.
End LoadPage.

(** ** More of the direct upload widget *)

(** The calls of the widget that start a request, and those that report
    how a request ended. *)
Definition isRequest (e : Direct.Effect) : bool :=
  match e with
  | Direct.uploadRequest _ _ => true
  | _ => false
  end.

Definition isReport (e : Direct.Effect) : bool := negb (isRequest e).

Definition countWhere (p : Direct.Effect -> bool) (l : list Direct.Effect) : nat :=
  List.length (filter p l).

(** Every request started is in flight or was reported once. *)
Definition requestsAccounted (st : Direct.State) : Prop :=
  countWhere isRequest (Direct.effects st)
  = (List.length (Direct.inFlight st) + countWhere isReport (Direct.effects st))%nat.

(** [update(linkState)] of the widget, on the checkbox
    [#upld-direct-start-pt] ([None] when it is not in the document). *)
Module DirectUpdate.
Section Update.
(** The states of the link, and [OperationalStates.includes]. *)
Variable LinkState : Type.
Variable isOperational : LinkState -> bool.

Record Checkbox : Type := mkCheckbox {
  checked : bool;
  disabled : bool;
  dataLinkState : option LinkState
}.

(** [setDisabled(element, disabled)] of the element helpers. *)
Variable setDisabled : Checkbox -> bool -> Checkbox.

Definition update (linkState : LinkState) (startPrintCheckbox : option Checkbox)
  : option Checkbox :=
  let canStartPrinting := isOperational linkState in
  match startPrintCheckbox with
  | Some c =>
      let c1 := mkCheckbox (checked c) (disabled c) (Some linkState) in
      let c2 :=
        if negb canStartPrinting
        then mkCheckbox false (disabled c1) (dataLinkState c1)
        else c1 in
      Some (setDisabled c2 (negb canStartPrinting))
  | None => None
  end.
End Update.
Arguments checked {LinkState} c.
Arguments disabled {LinkState} c.
Arguments dataLinkState {LinkState} c.
Arguments mkCheckbox {LinkState} checked disabled dataLinkState.
Arguments update {LinkState} isOperational setDisabled linkState startPrintCheckbox.

(** A [setDisabled] that writes the [disabled] property. *)
Definition writeDisabled {LinkState : Type} (c : Checkbox LinkState) (d : bool)
  : Checkbox LinkState :=
  mkCheckbox (checked c) d (dataLinkState c).
End DirectUpdate.

(** ** The details of a folder entry *)

Section FolderDetails.
(** The decimal form of a number in a template string. *)
Variable numberToString : nat -> string.

(** The [details] text of [createNodeFolder]: the parts for counts that are
    not zero, joined. *)
Definition detailsText (files folders : nat) : string :=
  let filesText :=
    if (files =? 0)%nat then None
    else Some (String.append (numberToString files) " files") in
  let foldersText :=
    if (folders =? 0)%nat then None
    else Some (String.append (numberToString folders) " folders") in
  join " | "
    (flat_map (fun i => match i with Some text => [text] | None => [] end)
       [filesText; foldersText]).

(** The details [redrawFiles] shows for a folder entry. *)
Definition folderDetails (entry : FileSystemNode) : string :=
  detailsText (countFilesRecursively entry) (countFoldersRecursively entry).
End FolderDetails.

(** * Properties *)

(** ** Tree helpers *)

Lemma fold_left_count_acc (f : FileSystemNode -> nat) (l : list FileSystemNode) (acc : nat) :
  fold_left (fun count i => (count + f i)%nat) l acc = (acc + list_sum (map f l))%nat.
Proof.
  revert acc; induction l as [|x l IH]; intros acc; simpl.
  - lia.
  - rewrite IH. lia.
Qed.

Lemma list_sum_folders (f : FileSystemNode -> nat) (cs : list FileSystemNode) :
  list_sum (map (fun i => if isFolder i then f i else 0%nat) cs)
  = list_sum (map f (filter isFolder cs)).
Proof.
  induction cs as [|c cs IH]; simpl; [reflexivity|].
  destruct (isFolder c); simpl; rewrite IH; reflexivity.
Qed.

(** The counters in the form of the source: [count] starts at the number of
    direct matches and each folder child adds its own count. *)
Lemma countFoldersRecursively_eq (node : FileSystemNode) :
  countFoldersRecursively node
  = let folders := childrenWhere isFolder node in
    fold_left (fun count i => (count + countFoldersRecursively i)%nat) folders
      (List.length folders).
Proof.
  cbv zeta. rewrite fold_left_count_acc.
  destruct node as [n d o p t [cs|] s dt]; unfold childrenWhere; simpl; [|reflexivity].
  rewrite list_sum_folders. reflexivity.
Qed.

Lemma countFilesRecursively_eq (node : FileSystemNode) :
  countFilesRecursively node
  = let files := childrenWhere isMachinecode node in
    let folders := childrenWhere isFolder node in
    fold_left (fun count i => (count + countFilesRecursively i)%nat) folders
      (List.length files).
Proof.
  cbv zeta. rewrite fold_left_count_acc.
  destruct node as [n d o p t [cs|] s dt]; unfold childrenWhere; simpl; [|reflexivity].
  rewrite list_sum_folders. reflexivity.
Qed.

(** Counting a type over the descendants of a list of siblings splits into
    the direct matches and the descendants of the folders among them. *)
Lemma count_flat_map_descendants (ty : string) (cs : list FileSystemNode) :
  List.length
    (filter (fun d => type d =? ty)
       (flat_map (fun c => c :: (if isFolder c then descendants c else [])) cs))
  = (List.length (filter (fun d => (type d =? ty)%string) cs)
     + list_sum (map (fun i => if isFolder i then countDescendants ty i else 0%nat) cs))%nat.
Proof.
  induction cs as [|c cs IH]; [reflexivity|].
  cbn [flat_map map list_sum]. rewrite filter_app, length_app, IH.
  cbn [filter]. unfold countDescendants.
  destruct (type c =? ty); destruct (isFolder c); cbn [List.length app];
    change (list_sum (?x :: ?l)) with (x + list_sum l)%nat;
    cbn [filter List.length]; lia.
Qed.

Lemma list_sum_map_ext_Forall (f g : FileSystemNode -> nat) (cs : list FileSystemNode) :
  Forall (fun c => f c = g c) cs ->
  list_sum (map (fun i => if isFolder i then f i else 0%nat) cs)
  = list_sum (map (fun i => if isFolder i then g i else 0%nat) cs).
Proof.
  induction 1 as [|c cs Hc _ IH]; simpl; [reflexivity|].
  rewrite IH. destruct (isFolder c); congruence.
Qed.

Lemma countFilesRecursively_descendants (node : FileSystemNode) :
  countFilesRecursively node = countDescendants "machinecode" node.
Proof.
  induction node as [n d o p t s dt | n d o p t cs s dt IH] using FileSystemNode_tree_ind.
  - reflexivity.
  - unfold countDescendants. cbn [descendants countFilesRecursively children].
    rewrite count_flat_map_descendants.
    rewrite (list_sum_map_ext_Forall _ _ _ IH). reflexivity.
Qed.

Lemma countFoldersRecursively_descendants (node : FileSystemNode) :
  countFoldersRecursively node = countDescendants "folder" node.
Proof.
  induction node as [n d o p t s dt | n d o p t cs s dt IH] using FileSystemNode_tree_ind.
  - reflexivity.
  - unfold countDescendants. cbn [descendants countFoldersRecursively children].
    rewrite count_flat_map_descendants.
    rewrite (list_sum_map_ext_Forall _ _ _ IH). reflexivity.
Qed.

(** C4. For every tree, [countFilesRecursively] is the number of machinecode
    nodes and [countFoldersRecursively] the number of folder nodes among the
    descendants reachable through folder children, as the reference
    depth-first walk [descendants] lists them. *)
Theorem count_recursively_matches_reference_walk (node : FileSystemNode) :
  countFilesRecursively node = countDescendants "machinecode" node
  /\ countFoldersRecursively node = countDescendants "folder" node.
Proof.
  split.
  - apply countFilesRecursively_descendants.
  - apply countFoldersRecursively_descendants.
Qed.

(** ** [findFile] *)

Example split_path :
  split "/" "/local/a.gcode" = [EmptyString; "local"; "a.gcode"].
Proof. reflexivity. Qed.

Example pathSegmentsOf_fdm_drops_first :
  pathSegmentsOf fdm "/local//a.gcode/" = ["a.gcode"]
  /\ pathSegmentsOf sla "/local//a.gcode/" = ["local"; "a.gcode"].
Proof. split; reflexivity. Qed.

(** A file that is there is found. *)
Example findFile_finds_file :
  findFile sla [rootWithLeaf] "local" "/a.gcode" = Return (Some leafFile)
  /\ findFile fdm [rootWithLeaf] "local" "/local/a.gcode" = Return (Some leafFile)
  /\ findFile sla [rootWithLeaf] "local" "/b.gcode" = Return None
  /\ findFile sla [rootWithLeaf] "usb" "/a.gcode" = Return None
  /\ findFile sla [rootWithLeaf] "local" "/" = Return None.
Proof. repeat split. Qed.

Lemma walkSegments_no_target (pathSegments : list string) :
  walkSegments None pathSegments = Return None.
Proof. destruct pathSegments; reflexivity. Qed.

(** A segment without a matching child, below a node that has a [children]
    array, ends the walk with no target. *)
Lemma walkSegments_missing_segment (t : FileSystemNode) (cs : list FileSystemNode)
  (segment : string) (rest : list string) :
  children t = Some cs ->
  find (fun i => name i =? segment) cs = None ->
  walkSegments (Some t) (segment :: rest) = Return None.
Proof.
  intros Hcs Hfind. cbn [walkSegments]. rewrite Hcs, Hfind.
  apply walkSegments_no_target.
Qed.

(** A segment below a node without [children] (a leaf) throws. *)
Lemma walkSegments_below_leaf (t : FileSystemNode) (segment : string) (rest : list string) :
  children t = None ->
  walkSegments (Some t) (segment :: rest) = Throw TypeError.
Proof. intros Hcs. cbn [walkSegments]. rewrite Hcs. reflexivity. Qed.

Lemma walkSegmentsSpec_no_target (pathSegments : list string) :
  walkSegmentsSpec None pathSegments = None.
Proof. destruct pathSegments; reflexivity. Qed.

(** When the walk of the code returns, it returns what the specification
    says; it differs only where it throws. *)
Lemma walkSegments_returns_spec (pathSegments : list string)
  (target r : option FileSystemNode) :
  walkSegments target pathSegments = Return r ->
  r = walkSegmentsSpec target pathSegments.
Proof.
  revert target. induction pathSegments as [|segment rest IH]; intros target H.
  - cbn in *. congruence.
  - destruct target as [t|]; cbn [walkSegments walkSegmentsSpec] in *.
    + destruct (children t) as [cs|]; [|discriminate].
      apply IH. exact H.
    + congruence.
Qed.

(** The walk throws exactly when it reaches a node without children with a
    segment left. *)
Lemma walkSegments_throws_iff (pathSegments : list string) (target : option FileSystemNode) :
  walkSegments target pathSegments = Throw TypeError
  <-> exists before t segment rest,
        pathSegments = before ++ segment :: rest
        /\ walkSegments target before = Return (Some t)
        /\ children t = None.
Proof.
  revert target. induction pathSegments as [|segment rest IH]; intros target.
  - split; [discriminate|].
    intros (before & t & seg & rest' & Heq & _). destruct before; discriminate.
  - destruct target as [t|].
    + cbn [walkSegments]. destruct (children t) as [cs|] eqn:Hcs.
      * rewrite IH. split.
        -- intros (before & t' & seg & rest' & -> & Hwalk & Hleaf).
           exists (segment :: before), t', seg, rest'.
           cbn [walkSegments app]. rewrite Hcs. auto.
        -- intros (before & t' & seg & rest' & Heq & Hwalk & Hleaf).
           destruct before as [|s before].
           ++ cbn in Hwalk. injection Hwalk as <-. congruence.
           ++ cbn [app] in Heq. injection Heq as <- ->.
              cbn [walkSegments] in Hwalk. rewrite Hcs in Hwalk.
              exists before, t', seg, rest'. auto.
      * split; [|reflexivity]. intros _.
        exists [], t, segment, rest. auto.
    + split; [discriminate|].
      intros (before & t' & seg & rest' & _ & Hwalk & _).
      rewrite walkSegments_no_target in Hwalk. discriminate.
Qed.

(** Whatever [findFile] returns is a machinecode node. *)
Lemma findFile_returns_machinecode (printer : PrinterType) (files : list FileSystemNode)
  (origin' path' : string) (t : FileSystemNode) :
  findFile printer files origin' path' = Return (Some t) -> isMachinecode t = true.
Proof.
  unfold findFile.
  destruct (negb (truthy_string origin') || negb (truthy_string path')); [discriminate|].
  destruct (walkSegments _ _) as [[t'|]|e]; try discriminate.
  destruct (isMachinecode t') eqn:Hm; [|discriminate].
  intros H; injection H as <-. exact Hm.
Qed.

(** C1. [findFile] does not return [null] for every path with a missing
    segment: a path that continues below a file reads [children] of a node
    that has none, and the call throws.  With [metadata.files] holding a
    root folder [local] whose only child is the file [a.gcode], the segment
    [b] of [/a.gcode/b] (printer type sla) and of [/local/a.gcode/b]
    (printer type fdm) does not exist, and [findFile] throws a
    [TypeError].  So does, for printer type fdm, any path of two segments
    when the first entry of the listing in [metadata.files] is a file. *)
Theorem findFile_throws_below_file :
  findFile sla [rootWithLeaf] "local" "/a.gcode/b" = Throw TypeError
  /\ findFile fdm [rootWithLeaf] "local" "/local/a.gcode/b" = Throw TypeError
  /\ findFile fdm [leafFile] "local" "/local/b.gcode" = Throw TypeError.
Proof. repeat split. Qed.

(** ** [sortFiles] *)

Section StableSortFacts.
Variable A : Type.
Variable compare : A -> A -> Z.

(** The comparator is consistent: swapping the arguments flips the sign,
    and "not after" is transitive. *)
Hypothesis compare_antisym :
  forall a b, Z.sgn (compare a b) = (- Z.sgn (compare b a))%Z.
Hypothesis compare_trans :
  forall a b c, (compare a b <= 0)%Z -> (compare b c <= 0)%Z ->
                (compare a c <= 0)%Z.

Lemma insertOrdered_perm (x : A) (l : list A) :
  Permutation (x :: l) (insertOrdered compare x l).
Proof.
  induction l as [|y r IH]; simpl; [reflexivity|].
  destruct (compare x y <=? 0)%Z; [reflexivity|].
  rewrite perm_swap. constructor. exact IH.
Qed.

Lemma stableSort_perm (l : list A) : Permutation l (stableSort compare l).
Proof.
  induction l as [|x r IH]; simpl; [constructor|].
  rewrite <- insertOrdered_perm. constructor. exact IH.
Qed.

Lemma notAfterBy_flip (a b : A) : (0 < compare a b)%Z -> notAfterBy compare b a.
Proof.
  unfold notAfterBy. intros H. pose proof (compare_antisym a b) as Hs.
  rewrite (Z.sgn_pos _ H) in Hs.
  destruct (Z.sgn_spec (compare b a)) as [[? ?]|[[? ?]|[? ?]]]; lia.
Qed.

Lemma insertOrdered_sorted (x : A) (l : list A) :
  StronglySorted (notAfterBy compare) l ->
  StronglySorted (notAfterBy compare) (insertOrdered compare x l).
Proof.
  induction 1 as [|y r Hr IH Hy]; simpl.
  - constructor; constructor.
  - destruct (Z.leb_spec (compare x y) 0) as [Hle|Hgt].
    + constructor; [constructor; assumption|].
      constructor; [exact Hle|].
      eapply Forall_impl; [|exact Hy].
      intros z Hz. exact (compare_trans _ _ _ Hle Hz).
    + constructor; [exact IH|].
      eapply Permutation_Forall; [apply insertOrdered_perm|].
      constructor; [apply notAfterBy_flip; exact Hgt|exact Hy].
Qed.

Lemma stableSort_sorted (l : list A) :
  StronglySorted (notAfterBy compare) (stableSort compare l).
Proof.
  induction l as [|x r IH]; simpl; [constructor|].
  apply insertOrdered_sorted. exact IH.
Qed.

Lemma tieBy_sym (a b : A) : tieBy compare a b = true -> tieBy compare b a = true.
Proof.
  unfold tieBy. rewrite !Z.eqb_eq. intros H.
  pose proof (compare_antisym b a) as Hs. rewrite H in Hs. simpl in Hs.
  apply Z.sgn_null_iff. exact Hs.
Qed.

(** Two elements tied with a third are not strictly apart. *)
Lemma tieBy_not_after (z x y : A) :
  tieBy compare z x = true -> tieBy compare z y = true -> notAfterBy compare x y.
Proof.
  intros Hx Hy. apply tieBy_sym in Hx. unfold tieBy, notAfterBy in *.
  rewrite Z.eqb_eq in *.
  apply compare_trans with z; lia.
Qed.

Lemma insertOrdered_stable (z x : A) (l : list A) :
  filter (tieBy compare z) (insertOrdered compare x l) = filter (tieBy compare z) (x :: l).
Proof.
  induction l as [|y r IH]; [reflexivity|].
  cbn [insertOrdered].
  destruct (Z.leb_spec (compare x y) 0) as [Hle|Hgt]; [reflexivity|].
  cbn [filter] in *. rewrite IH.
  destruct (tieBy compare z x) eqn:Hx; [|reflexivity].
  destruct (tieBy compare z y) eqn:Hy; [|reflexivity].
  pose proof (tieBy_not_after _ _ _ Hx Hy) as Hn. unfold notAfterBy in Hn. lia.
Qed.

Lemma stableSort_stable (z : A) (l : list A) :
  filter (tieBy compare z) (stableSort compare l) = filter (tieBy compare z) l.
Proof.
  induction l as [|x r IH]; [reflexivity|].
  cbn [stableSort]. rewrite insertOrdered_stable. cbn [filter]. rewrite IH. reflexivity.
Qed.

Lemma StronglySorted_before (R : A -> A -> Prop) (l1 l2 : list A) (a b : A) :
  StronglySorted R (l1 ++ a :: l2) -> In b l2 -> R a b.
Proof.
  induction l1 as [|c l1 IH]; simpl; intros Hs Hin.
  - apply StronglySorted_inv in Hs as [_ Hall].
    rewrite Forall_forall in Hall. apply Hall. exact Hin.
  - apply StronglySorted_inv in Hs as [Hs _]. apply IH; assumption.
Qed.

Lemma tieBy_refl (a : A) : tieBy compare a a = true.
Proof.
  unfold tieBy. apply Z.eqb_eq.
  pose proof (compare_antisym a a) as Hs.
  apply Z.sgn_null_iff. lia.
Qed.

Lemma notAfterBy_both_tie (a b : A) :
  notAfterBy compare a b -> notAfterBy compare b a -> tieBy compare a b = true.
Proof.
  unfold notAfterBy, tieBy. intros Hab Hba. apply Z.eqb_eq.
  pose proof (compare_antisym a b) as Hs.
  destruct (Z.sgn_spec (compare a b)) as [[? ?]|[[? ?]|[? ?]]];
    destruct (Z.sgn_spec (compare b a)) as [[? ?]|[[? ?]|[? ?]]]; lia.
Qed.

Lemma StronglySorted_head (a : A) (l : list A) (b : A) :
  StronglySorted (notAfterBy compare) (a :: l) -> In b (a :: l) ->
  notAfterBy compare a b.
Proof.
  intros Hs [<-|Hin].
  - pose proof (tieBy_refl a) as Ht. unfold tieBy, notAfterBy in *.
    apply Z.eqb_eq in Ht. lia.
  - apply StronglySorted_inv in Hs as [_ Hall].
    rewrite Forall_forall in Hall. auto.
Qed.

(** Two stable orderings of the same entries are the same list: whatever
    stable sort the engine runs, it returns what [stableSort] returns. *)
Lemma stable_sorted_unique (l1 l2 : list A) :
  Permutation l1 l2 ->
  StronglySorted (notAfterBy compare) l1 ->
  StronglySorted (notAfterBy compare) l2 ->
  (forall z, filter (tieBy compare z) l1 = filter (tieBy compare z) l2) ->
  l1 = l2.
Proof.
  revert l2. induction l1 as [|a l1 IH]; intros l2 Hperm Hs1 Hs2 Hstable.
  - apply Permutation_nil in Hperm. congruence.
  - destruct l2 as [|b l2].
    + apply Permutation_sym, Permutation_nil in Hperm. discriminate.
    + assert (Hab : tieBy compare a b = true).
      { apply notAfterBy_both_tie.
        - apply (StronglySorted_head a l1 b Hs1).
          apply (Permutation_in b (Permutation_sym Hperm)). left. reflexivity.
        - apply (StronglySorted_head b l2 a Hs2).
          apply (Permutation_in a Hperm). left. reflexivity. }
      pose proof (Hstable a) as Ha. cbn [filter] in Ha.
      rewrite tieBy_refl, Hab in Ha. injection Ha as Heq _. subst b.
      f_equal. apply IH.
      * apply Permutation_cons_inv with a. exact Hperm.
      * apply StronglySorted_inv in Hs1. tauto.
      * apply StronglySorted_inv in Hs2. tauto.
      * intros z. pose proof (Hstable z) as Hz. cbn [filter] in Hz.
        destruct (tieBy compare z a); [injection Hz; auto|exact Hz].
Qed.

Lemma stableSort_unique (l sorted : list A) :
  Permutation l sorted ->
  StronglySorted (notAfterBy compare) sorted ->
  (forall z, filter (tieBy compare z) sorted = filter (tieBy compare z) l) ->
  sorted = stableSort compare l.
Proof.
  intros Hperm Hs Hstable. apply stable_sorted_unique.
  - rewrite <- Hperm. apply stableSort_perm.
  - exact Hs.
  - apply stableSort_sorted.
  - intros z. rewrite Hstable, stableSort_stable. reflexivity.
Qed.

(** A list that is in order is left as it is. *)
Lemma stableSort_sorted_id (l : list A) :
  StronglySorted (notAfterBy compare) l -> stableSort compare l = l.
Proof.
  induction 1 as [|x r Hr IH Hx]; [reflexivity|].
  cbn [stableSort]. rewrite IH.
  destruct r as [|y r]; [reflexivity|]. cbn [insertOrdered].
  apply Forall_inv in Hx. unfold notAfterBy in Hx.
  destruct (Z.leb_spec (compare x y) 0); [reflexivity|lia].
Qed.
End StableSortFacts.

(** [Array_sort] with a comparator that may throw. *)
Section ArraySortFacts.
Variable A : Type.
Variable comparefn : A -> A -> completion Z.
Variable compare : A -> A -> Z.

Lemma insertSorted_returns (x : A) (l : list A) :
  (forall y, In y l -> comparefn x y = Return (compare x y)) ->
  insertSorted comparefn x l = Return (insertOrdered compare x l).
Proof.
  induction l as [|y r IH]; intros H; [reflexivity|].
  cbn [insertSorted insertOrdered]. rewrite (H y (or_introl eq_refl)).
  destruct (compare x y <=? 0)%Z; [reflexivity|].
  rewrite IH; [reflexivity|]. intros z Hz. apply H. right. exact Hz.
Qed.

(** When the comparator returns on every pair of elements of the array,
    the sort returns, and returns the stable ordering. *)
Lemma Array_sort_returns (l : list A) :
  (forall x y, In x l -> In y l -> comparefn x y = Return (compare x y)) ->
  Array_sort comparefn l = Return (stableSort compare l).
Proof.
  induction l as [|x r IH]; intros H; [reflexivity|].
  cbn [Array_sort stableSort]. rewrite IH.
  - apply insertSorted_returns. intros y Hy. apply H; [left; reflexivity|].
    right. apply (Permutation_in y (Permutation_sym (stableSort_perm A compare r))).
    exact Hy.
  - intros a b Ha Hb. apply H; right; assumption.
Qed.

(** When the comparator throws on every pair of elements, the sort of two
    elements or more throws: it compares two of them, whichever it
    chooses. *)
Lemma Array_sort_throws (e : exn) (l : list A) :
  (forall x y, In x l -> In y l -> comparefn x y = Throw e) ->
  (2 <= List.length l)%nat ->
  Array_sort comparefn l = Throw e.
Proof.
  induction l as [|x r IH]; intros H Hlen; [cbn in Hlen; lia|].
  destruct r as [|y r]; [cbn in Hlen; lia|].
  destruct r as [|z r].
  - cbn. rewrite H; [reflexivity|left; reflexivity|right; left; reflexivity].
  - change (Array_sort comparefn (x :: y :: z :: r))
      with (match Array_sort comparefn (y :: z :: r) with
            | Throw e' => Throw e'
            | Return sorted => insertSorted comparefn x sorted
            end).
    rewrite IH; [reflexivity| |cbn; lia].
    intros a b Ha Hb. apply H; right; assumption.
Qed.

(** What the sort returns is a reordering of the array; an exception of the
    sort is the exception of a comparison of two elements. *)
Lemma insertSorted_perm (x : A) (l sorted : list A) :
  insertSorted comparefn x l = Return sorted -> Permutation (x :: l) sorted.
Proof.
  revert sorted. induction l as [|y r IH]; intros sorted; cbn [insertSorted].
  - intros [= <-]. reflexivity.
  - destruct (comparefn x y) as [c|]; [|discriminate].
    destruct (c <=? 0)%Z; [intros [= <-]; reflexivity|].
    destruct (insertSorted comparefn x r) as [r'|]; [|discriminate].
    intros [= <-]. rewrite perm_swap. constructor. apply IH. reflexivity.
Qed.

Lemma Array_sort_perm (l sorted : list A) :
  Array_sort comparefn l = Return sorted -> Permutation l sorted.
Proof.
  revert sorted. induction l as [|x r IH]; intros sorted; cbn [Array_sort].
  - intros [= <-]. constructor.
  - destruct (Array_sort comparefn r) as [s|]; [|discriminate]. intros Hins.
    transitivity (x :: s); [constructor; apply IH; reflexivity|].
    apply insertSorted_perm. exact Hins.
Qed.

Lemma insertSorted_throws_inv (e : exn) (x : A) (l : list A) :
  insertSorted comparefn x l = Throw e ->
  exists y, In y l /\ comparefn x y = Throw e.
Proof.
  induction l as [|y r IH]; cbn [insertSorted]; [discriminate|].
  destruct (comparefn x y) as [c|e'] eqn:Hc.
  - destruct (c <=? 0)%Z; [discriminate|].
    destruct (insertSorted comparefn x r); [discriminate|].
    intros [= <-]. destruct (IH eq_refl) as (z & Hz & Hxz).
    exists z. split; [right; exact Hz|exact Hxz].
  - intros [= <-]. exists y. split; [left; reflexivity|exact Hc].
Qed.

Lemma Array_sort_throws_inv (e : exn) (l : list A) :
  Array_sort comparefn l = Throw e ->
  exists x y, In x l /\ In y l /\ comparefn x y = Throw e.
Proof.
  induction l as [|x r IH]; cbn [Array_sort]; [discriminate|].
  destruct (Array_sort comparefn r) as [s|e'] eqn:Hs.
  - intros Hins. apply insertSorted_throws_inv in Hins as (y & Hy & Hxy).
    exists x, y. split; [left; reflexivity|]. split; [|exact Hxy].
    right. apply (Permutation_in y (Permutation_sym (Array_sort_perm _ _ Hs))).
    exact Hy.
  - intros [= <-]. destruct (IH eq_refl) as (a & b & Ha & Hb & Hab).
    exists a, b. split; [right; exact Ha|]. split; [right; exact Hb|exact Hab].
Qed.

Lemma StronglySorted_In_impl (R R' : A -> A -> Prop) (l : list A) :
  (forall a b, In a l -> In b l -> R a b -> R' a b) ->
  StronglySorted R l -> StronglySorted R' l.
Proof.
  intros Himpl Hs. induction Hs as [|a l Hs IH Hall]; constructor.
  - apply IH. intros x y Hx Hy. apply Himpl; right; assumption.
  - rewrite Forall_forall in *. intros b Hb.
    apply Himpl; [left; reflexivity|right; exact Hb|]. apply Hall. exact Hb.
Qed.

Lemma filter_none (p : A -> bool) (l : list A) :
  (forall x, p x = false) -> filter p l = [].
Proof.
  intros H. induction l as [|x r IH]; [reflexivity|].
  cbn [filter]. rewrite H. exact IH.
Qed.
End ArraySortFacts.

Lemma sgn_flip_scaled (o x y : Z) :
  Z.sgn x = (- Z.sgn y)%Z -> Z.sgn (o * x) = (- Z.sgn (o * y))%Z.
Proof. intros H. rewrite !Z.sgn_mul, H. ring. Qed.

Lemma sgn_sub_flip (a b : Z) : Z.sgn (a - b) = (- Z.sgn (b - a))%Z.
Proof. rewrite <- Z.sgn_opp. f_equal. ring. Qed.

Section CompareFilesFacts.
Variable localeCompare : string -> string -> Z.
Variable sort : Sort.

(** [compareFiles] returns unless it reads the display name of an entry
    that has none. *)
Lemma compareFiles_returns (f1 f2 : FileSystemNode) :
  (readsDisplay sort = true -> display f1 <> None) ->
  compareFiles localeCompare sort f1 f2
  = Return (compareFilesValue localeCompare sort f1 f2).
Proof.
  unfold compareFiles, compareFilesValue, readsDisplay. intros H.
  destruct (isFolder f1), (isFolder f2); cbn [andb negb]; try reflexivity;
    cbv zeta; destruct (field sort =? "date"); try reflexivity;
    destruct (field sort =? "size"); try reflexivity;
    (destruct (display f1); [reflexivity|exfalso; apply H; reflexivity]).
Qed.

Lemma compareFiles_throws (f1 f2 : FileSystemNode) :
  readsDisplay sort = true -> display f1 = None -> isFolder f1 = isFolder f2 ->
  compareFiles localeCompare sort f1 f2 = Throw TypeError.
Proof.
  unfold compareFiles, readsDisplay. intros Hr Hd Hk. rewrite Hk, Hd.
  destruct (field sort =? "date"); [discriminate|].
  destruct (field sort =? "size"); [discriminate|].
  destruct (isFolder f2); reflexivity.
Qed.

(** The only exception of [compareFiles] is the [TypeError] of the read of a
    missing display name. *)
Lemma compareFiles_throws_inv (f1 f2 : FileSystemNode) (e : exn) :
  compareFiles localeCompare sort f1 f2 = Throw e ->
  e = TypeError /\ readsDisplay sort = true /\ display f1 = None
  /\ isFolder f1 = isFolder f2.
Proof.
  unfold compareFiles, readsDisplay.
  destruct (isFolder f1), (isFolder f2); cbn [andb negb]; try discriminate;
    cbv zeta; destruct (field sort =? "date"); try discriminate;
    destruct (field sort =? "size"); try discriminate;
    (destruct (display f1); [discriminate|]); intros [= <-]; repeat split.
Qed.

(** The ties of [compareFiles] are those of the number it returns. *)
Lemma compareFiles_tie (z : FileSystemNode) :
  (readsDisplay sort = true -> display z <> None) ->
  forall f, tie (compareFiles localeCompare sort) z f
            = tieBy (compareFilesValue localeCompare sort) z f.
Proof.
  intros H f. unfold tie. rewrite compareFiles_returns by exact H. reflexivity.
Qed.

Lemma compareFiles_no_tie (z : FileSystemNode) :
  readsDisplay sort = true -> display z = None ->
  forall f, tie (compareFiles localeCompare sort) z f = false.
Proof.
  intros Hr Hd f. unfold tie.
  destruct (Bool.bool_dec (isFolder z) (isFolder f)) as [Hk|Hk].
  - rewrite compareFiles_throws by assumption. reflexivity.
  - unfold compareFiles.
    destruct (isFolder z), (isFolder f); cbn [andb negb]; try reflexivity;
      exfalso; apply Hk; reflexivity.
Qed.

Lemma compareFiles_notAfter (f1 f2 : FileSystemNode) :
  (readsDisplay sort = true -> display f1 <> None) ->
  notAfterBy (compareFilesValue localeCompare sort) f1 f2 ->
  notAfter (compareFiles localeCompare sort) f1 f2.
Proof.
  intros H Hn. unfold notAfter. rewrite compareFiles_returns by exact H. exact Hn.
Qed.

(** For a listing whose display names are there where they are read, the
    sort returns the stable ordering. *)
Lemma sortFiles_returns (files : list FileSystemNode) :
  displayed sort files ->
  sortFiles localeCompare sort files
  = Return (stableSort (compareFilesValue localeCompare sort) files).
Proof.
  intros Hd. unfold sortFiles. apply Array_sort_returns.
  intros x y Hx _. apply compareFiles_returns. intros Hr.
  specialize (Hd Hr). rewrite Forall_forall in Hd. apply Hd. exact Hx.
Qed.

(** For a listing of two entries or more, all folders or none, where the
    display names are read and none is there, the sort throws. *)
Lemma sortFiles_throws (files : list FileSystemNode) (kind : bool) :
  readsDisplay sort = true ->
  Forall (fun f => display f = None /\ isFolder f = kind) files ->
  (2 <= List.length files)%nat ->
  sortFiles localeCompare sort files = Throw TypeError.
Proof.
  intros Hr Hall Hlen. unfold sortFiles. apply Array_sort_throws; [|exact Hlen].
  rewrite Forall_forall in Hall. intros x y Hx Hy.
  destruct (Hall x Hx) as [Hd Hkx]. destruct (Hall y Hy) as [_ Hky].
  apply compareFiles_throws; congruence.
Qed.

Lemma displayed_perm (l l' : list FileSystemNode) :
  Permutation l l' -> displayed sort l -> displayed sort l'.
Proof.
  unfold displayed. intros Hp Hd Hr. eapply Permutation_Forall; [exact Hp|auto].
Qed.

Hypothesis localeCompare_antisym :
  forall a b, Z.sgn (localeCompare a b) = (- Z.sgn (localeCompare b a))%Z.
Hypothesis localeCompare_trans :
  forall a b c, (localeCompare a b <= 0)%Z -> (localeCompare b c <= 0)%Z ->
                (localeCompare a c <= 0)%Z.

Lemma localeCompare_flip (a b : string) :
  (0 <= localeCompare a b)%Z <-> (localeCompare b a <= 0)%Z.
Proof.
  pose proof (localeCompare_antisym a b) as Hs.
  destruct (Z.sgn_spec (localeCompare a b)) as [[? ?]|[[? ?]|[? ?]]];
    destruct (Z.sgn_spec (localeCompare b a)) as [[? ?]|[[? ?]|[? ?]]]; lia.
Qed.

Lemma compareFilesValue_antisym (f1 f2 : FileSystemNode) :
  Z.sgn (compareFilesValue localeCompare sort f1 f2)
  = (- Z.sgn (compareFilesValue localeCompare sort f2 f1))%Z.
Proof.
  unfold compareFilesValue.
  destruct (isFolder f1), (isFolder f2); cbn [andb negb]; try reflexivity;
    cbv zeta; destruct (field sort =? "date");
    try destruct (field sort =? "size");
    apply sgn_flip_scaled;
    first [apply sgn_sub_flip | apply localeCompare_antisym].
Qed.

Lemma compareFilesValue_trans (f1 f2 f3 : FileSystemNode) :
  (compareFilesValue localeCompare sort f1 f2 <= 0)%Z ->
  (compareFilesValue localeCompare sort f2 f3 <= 0)%Z ->
  (compareFilesValue localeCompare sort f1 f3 <= 0)%Z.
Proof.
  unfold compareFilesValue.
  destruct (isFolder f1), (isFolder f2), (isFolder f3); cbn [andb negb];
    try lia;
    destruct (order sort =? "desc"); destruct (field sort =? "date");
    try destruct (field sort =? "size"); try lia; intros H12 H23.
  all: pose proof (localeCompare_flip (toStringArg (display f1)) (toStringArg (display f2)));
    pose proof (localeCompare_flip (toStringArg (display f2)) (toStringArg (display f3)));
    pose proof (localeCompare_flip (toStringArg (display f1)) (toStringArg (display f3)));
    pose proof (localeCompare_trans (toStringArg (display f1)) (toStringArg (display f2))
                  (toStringArg (display f3)));
    pose proof (localeCompare_trans (toStringArg (display f3)) (toStringArg (display f2))
                  (toStringArg (display f1)));
    lia.
Qed.

(** What the comparator says of a pair it lets stand in this order. *)
Lemma compareFilesValue_ordered (f1 f2 : FileSystemNode) :
  (readsDisplay sort = true -> display f1 <> None /\ display f2 <> None) ->
  notAfterBy (compareFilesValue localeCompare sort) f1 f2 ->
  (isFolder f2 = true -> isFolder f1 = true)
  /\ (isFolder f1 = isFolder f2 -> orderedByField localeCompare sort f1 f2).
Proof.
  unfold notAfterBy, compareFilesValue, orderedByField, readsDisplay.
  intros Hd.
  destruct (isFolder f1), (isFolder f2); cbn [andb negb]; intros H;
    (split; [intros; first [reflexivity | lia] | try discriminate]); intros _;
    cbv zeta in *;
    destruct (order sort =? "desc"); destruct (field sort =? "date");
    try destruct (field sort =? "size"); cbn [andb negb] in Hd;
    unfold ascendingNumbers, ascendingNames, orZero in *;
    try (destruct (date f1), (date f2); lia);
    try (destruct (size f1), (size f2); lia);
    destruct (Hd eq_refl) as [Hd1 Hd2];
    destruct (display f1) as [d1|]; try contradiction;
    destruct (display f2) as [d2|]; try contradiction;
    cbn [toStringArg] in H;
    pose proof (localeCompare_flip d1 d2); lia.
Qed.

Lemma sortFiles_sorted (files : list FileSystemNode) :
  displayed sort files ->
  StronglySorted (notAfter (compareFiles localeCompare sort))
    (stableSort (compareFilesValue localeCompare sort) files).
Proof.
  intros Hd.
  apply StronglySorted_In_impl with (R := notAfterBy (compareFilesValue localeCompare sort)).
  - intros a b Ha _ Hab. apply compareFiles_notAfter; [|exact Hab].
    intros Hr. specialize (Hd Hr). rewrite Forall_forall in Hd. apply Hd.
    apply (Permutation_in a (Permutation_sym
      (stableSort_perm _ (compareFilesValue localeCompare sort) files))). exact Ha.
  - apply stableSort_sorted.
    + exact compareFilesValue_antisym.
    + exact compareFilesValue_trans.
Qed.
End CompareFilesFacts.

(** C2. [sortFiles] does not order every list of entries: the comparator
    reads [display] of an entry unguarded, and the sort by name of entries
    that have none throws.  For every locale and every sort order, sorting
    by name the listing of two files without a display name throws a
    [TypeError], while the page shows the two entries under their names
    ([displayOrName]) and the sort of the same listing by date returns it
    in order. *)
Theorem sortFiles_throws_without_display
  (localeCompare : string -> string -> Z) (order' : string) :
  sortFiles localeCompare (mkSort "name" order') listingWithoutDisplay
  = Throw TypeError
  /\ map displayOrName listingWithoutDisplay = ["b.gcode"; "a.gcode"]
  /\ sortFiles localeCompare (mkSort "date" "asc") listingWithoutDisplay
     = Return [fileWithoutDisplay "a.gcode" 20 1; fileWithoutDisplay "b.gcode" 30 2].
Proof. repeat split. Qed.

Lemma codeUnitCompare_antisym (a b : string) :
  Z.sgn (codeUnitCompare a b) = (- Z.sgn (codeUnitCompare b a))%Z.
Proof.
  unfold codeUnitCompare. rewrite (String.compare_antisym b a).
  destruct (String.compare a b); reflexivity.
Qed.

Lemma codeUnitCompare_le (a b : string) :
  (codeUnitCompare a b <= 0)%Z <-> (a = b \/ String_as_OT.lt a b).
Proof.
  unfold codeUnitCompare.
  pose proof (String_as_OT.cmp_eq a b) as He.
  pose proof (String_as_OT.cmp_lt a b) as Hl.
  unfold String_as_OT.cmp in *.
  destruct (String.compare a b); split; intros H.
  - left. apply He. reflexivity.
  - lia.
  - right. apply Hl. reflexivity.
  - lia.
  - lia.
  - destruct H as [H|H]; [apply He in H|apply Hl in H]; discriminate.
Qed.

Lemma codeUnitCompare_trans (a b c : string) :
  (codeUnitCompare a b <= 0)%Z -> (codeUnitCompare b c <= 0)%Z ->
  (codeUnitCompare a c <= 0)%Z.
Proof.
  rewrite !codeUnitCompare_le. intros [->|Hab] [->|Hbc]; auto.
  right. eapply String_as_OT.lt_trans; eassumption.
Qed.

Lemma listing_displayed (sort : Sort) : displayed sort listing.
Proof. intros _. repeat constructor; discriminate. Qed.

(** The listing of the fixture, by name, by size and by date; by size, an
    entry without a display name is sorted with the others. *)
Example sortFiles_listing_by_name :
  sortFiles codeUnitCompare (mkSort "name" "asc") listing
  = Return [folderNamed "archive" []; folderNamed "parts" [leafFile];
            fileNamed "a.gcode" 20 2; fileNamed "b.gcode" 30 2].
Proof. reflexivity. Qed.

Example sortFiles_listing_by_size_desc :
  sortFiles codeUnitCompare (mkSort "size" "desc") listing
  = Return [folderNamed "parts" [leafFile]; folderNamed "archive" [];
            fileNamed "b.gcode" 30 2; fileNamed "a.gcode" 20 2].
Proof. reflexivity. Qed.

Example sortFiles_listing_by_date_ties :
  sortFiles codeUnitCompare (mkSort "date" "desc") listing
  = Return [folderNamed "parts" [leafFile]; folderNamed "archive" [];
            fileNamed "b.gcode" 30 2; fileNamed "a.gcode" 20 2].
Proof. reflexivity. Qed.

Example sortFiles_by_size_without_display :
  sortFiles codeUnitCompare (mkSort "size" "asc")
    (fileWithoutDisplay "c.gcode" 5 1 :: listing)
  = Return [folderNamed "parts" [leafFile]; folderNamed "archive" [];
            fileWithoutDisplay "c.gcode" 5 1; fileNamed "a.gcode" 20 2;
            fileNamed "b.gcode" 30 2].
Proof. reflexivity. Qed.

(** ** The file poller *)

Lemma ETag_eqb_eq (e1 e2 : ETag) : ETag_eqb e1 e2 = true <-> e1 = e2.
Proof.
  destruct e1, e2; simpl; split; intros H; try discriminate; try reflexivity.
  - apply String.eqb_eq in H. congruence.
  - injection H as ->. apply String.eqb_refl.
Qed.

Lemma ETag_eqb_refl (e : ETag) : ETag_eqb e e = true.
Proof. apply ETag_eqb_eq. reflexivity. Qed.

Lemma ETag_eqb_neq (e1 e2 : ETag) : ETag_eqb e1 e2 = false <-> e1 <> e2.
Proof.
  split.
  - intros H He. apply ETag_eqb_eq in He. congruence.
  - intros H. destruct (ETag_eqb e1 e2) eqn:He; [|reflexivity].
    apply ETag_eqb_eq in He. contradiction.
Qed.

(** What [updateFiles] does, case by case. *)
Lemma updateFiles_run (force : bool) (md : metadata.t) :
  updateFiles force md
  = match storagesGetOrigin (metadata.origin md) (metadata.storages md) with
    | None => (Return None, md, [])
    | Some storage =>
        let url := filesUrl storage (metadata.current_path md) in
        if force then
          (Return (Some ENull), metadata.set_eTag ENull md,
           [EvInitUpload; EvGetJson url (Some ENull)])
        else
          (Return (Some (metadata.eTag md)), md,
           [EvGetJson url (Some (metadata.eTag md))])
    end.
Proof.
  unfold updateFiles, bind, get.
  destruct (storagesGetOrigin _ _); [|reflexivity].
  destruct force; reflexivity.
Qed.

(** What [redrawFiles] does, case by case. *)
Lemma redrawFiles_run (localeCompare : string -> string -> Z) (filesNode : bool)
  (md : metadata.t) :
  redrawFiles localeCompare filesNode md
  = if filesNode then
      match sortFiles localeCompare (metadata.sort md) (metadata.files md) with
      | Return sorted => (Return tt, metadata.set_files sorted md, [EvRedrawFiles])
      | Throw e => (Throw e, md, [EvRedrawFiles])
      end
    else (Return tt, md, [EvRedrawFiles]).
Proof.
  unfold redrawFiles, bind, emit, get. destruct filesNode; [|reflexivity].
  destruct (sortFiles _ _ _); reflexivity.
Qed.

(** What the callback of the listing does, case by case. *)
Lemma updateFiles_then_run (localeCompare : string -> string -> Z)
  (filesNode : bool) (lastETag : ETag) (result : FilesResult.t) (md : metadata.t) :
  updateFiles_then localeCompare filesNode lastETag result md
  = if ETag_eqb (FilesResult.eTag result) lastETag then (Return tt, md, [])
    else
      match FilesResult.data result with
      | None => (Throw TypeError, metadata.set_eTag (FilesResult.eTag result) md, [])
      | Some files =>
          let md1 := metadata.set_files files
                       (metadata.set_eTag (FilesResult.eTag result) md) in
          if filesNode then
            match sortFiles localeCompare (metadata.sort md) files with
            | Return sorted =>
                (Return tt, metadata.set_files sorted md1, [EvClearFiles; EvRedrawFiles])
            | Throw e => (Throw e, md1, [EvClearFiles; EvRedrawFiles])
            end
          else (Return tt, md1, [EvClearFiles; EvRedrawFiles])
      end.
Proof.
  unfold updateFiles_then.
  destruct (ETag_eqb _ _); [reflexivity|]. cbn [negb].
  destruct (FilesResult.data result) as [files|]; [|reflexivity].
  unfold bind at 1. cbn [modify]. unfold bind at 1. cbn [modify].
  unfold clearFiles, bind at 1. cbn [emit].
  rewrite redrawFiles_run. cbv zeta. cbn [metadata.sort metadata.files metadata.set_files
    metadata.set_eTag].
  destruct filesNode; [|reflexivity].
  destruct (sortFiles _ _ _); reflexivity.
Qed.

(** C3. A file poll without the force flag leaves [metadata] as it is when
    it makes its request, and its callback keeps the ETag that was stored
    then.  If the response carries that ETag, the callback leaves
    [metadata] as it finds it, its [eTag] and [files] included, and calls
    neither [clearFiles] nor [redrawFiles]; a callback that redraws the list
    or changes [metadata.files] had a response with another ETag.  [md] is
    the file context when the request is made, [md1] when the response
    arrives. *)
Theorem file_poll_same_eTag_is_noop
  (localeCompare : string -> string -> Z) (filesNode : bool)
  (result : FilesResult.t) (md md1 : metadata.t) :
  exec (updateFiles false) md = md
  /\ (outcome (updateFiles false) md = Return None
      \/ outcome (updateFiles false) md = Return (Some (metadata.eTag md)))
  /\ (forall lastETag,
         outcome (updateFiles false) md = Return (Some lastETag) ->
         let callback := updateFiles_then localeCompare filesNode lastETag result in
         (FilesResult.eTag result = metadata.eTag md ->
          exec callback md1 = md1
          /\ ~ In EvClearFiles (calls callback md1)
          /\ ~ In EvRedrawFiles (calls callback md1))
         /\ (In EvRedrawFiles (calls callback md1)
             \/ metadata.files (exec callback md1) <> metadata.files md1 ->
             FilesResult.eTag result <> metadata.eTag md)).
Proof.
  unfold exec, outcome, calls. rewrite updateFiles_run.
  destruct (storagesGetOrigin _ _) as [storage|]; cbv beta iota zeta; cbn [fst snd].
  - split; [reflexivity|]. split; [right; reflexivity|].
    intros lastETag [= <-]. rewrite updateFiles_then_run.
    destruct (ETag_eqb (FilesResult.eTag result) (metadata.eTag md)) eqn:He.
    + apply ETag_eqb_eq in He. cbn. split.
      * intros _. repeat split; intros [].
      * intros [[]|H]; contradiction.
    + apply ETag_eqb_neq in He. split; [contradiction|]. intros _. exact He.
  - split; [reflexivity|]. split; [left; reflexivity|]. intros lastETag [=].
Qed.

Lemma file_poll_same_eTag_is_noop_witness :
  let result := FilesResult.mk (EToken "etag-1") (Some [leafFile]) in
  let callback := updateFiles_then codeUnitCompare true (EToken "etag-1") result in
  outcome (updateFiles false) browsingLocal = Return (Some (EToken "etag-1"))
  /\ FilesResult.eTag result = metadata.eTag browsingLocal
  /\ exec callback browsingLocal = browsingLocal
  /\ ~ In EvClearFiles (calls callback browsingLocal)
  /\ ~ In EvRedrawFiles (calls callback browsingLocal).
Proof.
  cbv zeta. split; [reflexivity|]. split; [reflexivity|].
  destruct (file_poll_same_eTag_is_noop codeUnitCompare true
              (FilesResult.mk (EToken "etag-1") (Some [leafFile]))
              browsingLocal browsingLocal) as [_ [_ H]].
  destruct (H (EToken "etag-1") eq_refl) as [Hsame _].
  exact (Hsame eq_refl).
Defined.

(** C7, as the code has it. A file poll with the force flag that makes its
    request discards the stored ETag first, whatever it was: [metadata.eTag]
    is [null], the request carries [null] as If-None-Match and the callback
    keeps [null].  A response that carries a file listing and an ETag other
    than [null] is then applied: [metadata.eTag] is the ETag of the
    response, [metadata.files] is the listing of the response (sorted for
    display when the DOM list exists and the sort returns) and [clearFiles]
    and [redrawFiles] are called.  [md] is the file context when the request is made, [md1] when
    the response arrives. *)
Theorem forced_poll_applies_response
  (localeCompare : string -> string -> Z) (filesNode : bool)
  (result : FilesResult.t) (files : list FileSystemNode)
  (md md1 : metadata.t) (storage : StorageData.t) :
  storagesGetOrigin (metadata.origin md) (metadata.storages md) = Some storage ->
  FilesResult.data result = Some files ->
  FilesResult.eTag result <> ENull ->
  (metadata.eTag (exec (updateFiles true) md) = ENull
   /\ outcome (updateFiles true) md = Return (Some ENull)
   /\ calls (updateFiles true) md
      = [EvInitUpload;
         EvGetJson (filesUrl storage (metadata.current_path md)) (Some ENull)])
  /\ (let callback := updateFiles_then localeCompare filesNode ENull result in
      metadata.eTag (exec callback md1) = FilesResult.eTag result
      /\ metadata.files (exec callback md1)
         = (if filesNode
            then match sortFiles localeCompare (metadata.sort md1) files with
                 | Return sorted => sorted
                 | Throw _ => files
                 end
            else files)
      /\ calls callback md1 = [EvClearFiles; EvRedrawFiles]).
Proof.
  intros Hstorage Hdata HeTag. unfold exec, outcome, calls.
  rewrite updateFiles_run, Hstorage. cbv beta iota zeta.
  split; [repeat split|].
  rewrite updateFiles_then_run, Hdata.
  apply ETag_eqb_neq in HeTag. rewrite HeTag. cbv zeta.
  destruct filesNode; [destruct (sortFiles _ _ _)|]; repeat split.
Qed.

Lemma forced_poll_applies_response_witness :
  let result := FilesResult.mk (EToken "etag-1") (Some listing) in
  let md1 := exec (updateFiles true) browsingLocal in
  let callback := updateFiles_then codeUnitCompare true ENull result in
  (metadata.eTag md1 = ENull
   /\ outcome (updateFiles true) browsingLocal = Return (Some ENull)
   /\ calls (updateFiles true) browsingLocal
      = [EvInitUpload; EvGetJson "/api/files/path/PrusaLink gcodes" (Some ENull)])
  /\ (metadata.eTag (exec callback md1) = EToken "etag-1"
      /\ metadata.files (exec callback md1)
         = [folderNamed "parts" [leafFile]; folderNamed "archive" [];
            fileNamed "b.gcode" 30 2; fileNamed "a.gcode" 20 2]
      /\ calls callback md1 = [EvClearFiles; EvRedrawFiles]).
Proof.
  apply (forced_poll_applies_response codeUnitCompare true
           (FilesResult.mk (EToken "etag-1") (Some listing)) listing browsingLocal
           (exec (updateFiles true) browsingLocal)
           (storageDataOf (localEntry true))).
  - reflexivity.
  - reflexivity.
  - discriminate.
Defined.

(** C7 fails as stated: a forced poll does not apply every response.  The
    bypass compares the ETag of the response with [null]; a response whose
    ETag is [null] (the listing came without the header) is dropped, with
    the listing it carries, and nothing is redrawn. *)
Lemma forced_poll_drops_response_without_eTag :
  let result := FilesResult.mk ENull (Some listing) in
  let md1 := exec (updateFiles true) browsingLocal in
  let callback := updateFiles_then codeUnitCompare true ENull result in
  outcome (updateFiles true) browsingLocal = Return (Some ENull)
  /\ metadata.files (exec callback md1) = metadata.files browsingLocal
  /\ sortFiles codeUnitCompare (mkSort "date" "desc") listing
     <> Return (metadata.files (exec callback md1))
  /\ metadata.files (exec callback md1) <> listing
  /\ ~ In EvRedrawFiles (calls callback md1).
Proof.
  cbv zeta. repeat split.
  - discriminate.
  - discriminate.
  - intros [].
Qed.

(** ** [selectStorage] *)

Lemma selectStorage_run (origin : StorageType) (md : metadata.t) :
  selectStorage origin md
  = match storagesGet origin (metadata.storages md) with
    | Some storage =>
        if StorageData.available storage then
          (Return tt,
           metadata.set_eTag ENull
             (metadata.set_current_path [StorageData.name storage]
                (metadata.set_origin (OStorage origin) md)),
           [EvClearFiles; EvClearFiles; EvInitUpload;
            EvGetJson (filesUrl storage [StorageData.name storage]) (Some ENull)])
        else (Return tt, md, [EvClearFiles])
    | None => (Return tt, md, [EvClearFiles])
    end.
Proof.
  unfold selectStorage, bind at 1 2, clearFiles, emit, get.
  destruct (storagesGet origin (metadata.storages md)) as [storage|] eqn:Hget;
    [|reflexivity].
  destruct (StorageData.available storage); [|reflexivity].
  unfold bind, modify, emit, ret. rewrite updateFiles_run.
  cbn [metadata.origin metadata.storages metadata.set_origin
       metadata.set_current_path storagesGetOrigin metadata.current_path].
  rewrite Hget. reflexivity.
Qed.

(** C5. Selecting a known storage whose cached [available] is false leaves
    [metadata] as it was, its [origin] and [current_path] included, and
    makes no request: the only call is the first [clearFiles]. *)
Theorem selectStorage_unavailable_is_noop
  (origin : StorageType) (md : metadata.t) (storage : StorageData.t) :
  storagesGet origin (metadata.storages md) = Some storage ->
  StorageData.available storage = false ->
  let md' := exec (selectStorage origin) md in
  metadata.origin md' = metadata.origin md
  /\ metadata.current_path md' = metadata.current_path md
  /\ md' = md
  /\ (forall url tag, ~ In (EvGetJson url tag) (calls (selectStorage origin) md)).
Proof.
  intros Hget Havailable. cbv zeta. unfold exec, calls.
  rewrite selectStorage_run, Hget, Havailable. cbn.
  repeat split. intros url tag [H|[]]. discriminate.
Qed.

Lemma selectStorage_unavailable_is_noop_witness :
  let md' := exec (selectStorage USB) browsingLocal in
  metadata.origin md' = OStorage LOCAL
  /\ metadata.current_path md' = ["PrusaLink gcodes"]
  /\ md' = browsingLocal
  /\ (forall url tag, ~ In (EvGetJson url tag) (calls (selectStorage USB) browsingLocal)).
Proof.
  apply (selectStorage_unavailable_is_noop USB browsingLocal (storageDataOf (usbEntry false))).
  - reflexivity.
  - reflexivity.
Defined.

(** ** The storage poller *)

Lemma StorageType_eqb_eq (a b : StorageType) : StorageType_eqb a b = true <-> a = b.
Proof. destruct a, b; simpl; split; intros H; congruence. Qed.

Lemma StorageType_eqb_refl (a : StorageType) : StorageType_eqb a a = true.
Proof. destruct a; reflexivity. Qed.

Lemma storagesGet_set_same (k : StorageType) (v : StorageData.t) (m : Storages) :
  storagesGet k (storagesSet k v m) = Some v.
Proof.
  induction m as [|[k' v'] r IH]; simpl.
  - rewrite StorageType_eqb_refl. reflexivity.
  - destruct (StorageType_eqb k' k) eqn:Hk; simpl.
    + rewrite StorageType_eqb_refl. reflexivity.
    + rewrite Hk. exact IH.
Qed.

Lemma storagesGet_set_other (k k0 : StorageType) (v : StorageData.t) (m : Storages) :
  k0 <> k -> storagesGet k0 (storagesSet k v m) = storagesGet k0 m.
Proof.
  intros Hne. induction m as [|[k' v'] r IH]; simpl.
  - destruct (StorageType_eqb k k0) eqn:Hk; [|reflexivity].
    apply StorageType_eqb_eq in Hk. congruence.
  - destruct (StorageType_eqb k' k) eqn:Hk; simpl.
    + apply StorageType_eqb_eq in Hk. subst k'.
      destruct (StorageType_eqb k k0) eqn:Hk0; [|reflexivity].
      apply StorageType_eqb_eq in Hk0. congruence.
    + rewrite IH. reflexivity.
Qed.

(** One turn of the loop writes [afterEntry] and makes no call. *)
Lemma updateStorageEntry_run (entry : Entry.t) (flags : bool * bool) (md : metadata.t) :
  exists flags',
    updateStorageEntry entry flags md = (Return flags', afterEntry md entry, []).
Proof.
  destruct flags as [redrawTabs redrawStorageDetails].
  unfold updateStorageEntry, afterEntry, clearsOrigin, bind, get, modify, ret.
  cbv zeta.
  destruct (storagesGet (Entry.type entry) (metadata.storages md)) as [storage|].
  - change (StorageData.available (storageDataOf entry)) with (Entry.available entry).
    destruct (negb (Bool.eqb (StorageData.available storage) (Entry.available entry)));
      cbn [andb].
    + destruct (originIs (metadata.origin md) (Entry.type entry)
                && negb (Entry.available entry)); cbn [app];
        match goal with
        | |- context [if ?c then _ else _] => destruct c
        end; eexists; reflexivity.
    + match goal with
      | |- context [if ?c then _ else _] => destruct c
      end; eexists; reflexivity.
  - eexists. reflexivity.
Qed.

Lemma updateStorageList_run (redraw : bool) (list : option (list Entry.t)) (md : metadata.t) :
  exists flags,
    updateStorageList redraw list md = (Return flags, afterList list md, []).
Proof.
  unfold updateStorageList, afterList.
  destruct list as [l|]; [|eexists; reflexivity].
  generalize (redraw, redraw) as flags. revert md.
  induction l as [|entry l IH]; intros md flags; cbn [forEach fold_left].
  - eexists. reflexivity.
  - unfold bind.
    destruct (updateStorageEntry_run entry flags md) as [flags' ->].
    destruct (IH (afterEntry md entry) flags') as [flags'' ->].
    eexists. reflexivity.
Qed.

Lemma afterList_storages (list : option (list Entry.t)) (md : metadata.t) :
  metadata.storages (afterList list md) = mergeStorageList list (metadata.storages md).
Proof.
  destruct list as [l|]; [|reflexivity]. cbn [afterList mergeStorageList].
  revert md. induction l as [|entry l IH]; intros md; cbn [fold_left]; [reflexivity|].
  rewrite IH. unfold afterEntry.
  destruct (clearsOrigin entry md); reflexivity.
Qed.

Lemma clearsOrigin_falsy (entry : Entry.t) (md : metadata.t) :
  originFalsy (metadata.origin md) = true -> clearsOrigin entry md = false.
Proof.
  unfold clearsOrigin. intros H.
  destruct (storagesGet _ _); [|reflexivity].
  destruct (metadata.origin md); try discriminate; cbn [originIs andb];
    apply andb_false_r.
Qed.

Lemma afterEntry_origin (entry : Entry.t) (md : metadata.t) :
  metadata.origin (afterEntry md entry)
  = if clearsOrigin entry md then OFalse else metadata.origin md.
Proof. unfold afterEntry. destruct (clearsOrigin entry md); reflexivity. Qed.

(** An unset origin stays as it is through the loop. *)
Lemma afterList_origin_falsy (list : option (list Entry.t)) (md : metadata.t) :
  originFalsy (metadata.origin md) = true ->
  metadata.origin (afterList list md) = metadata.origin md.
Proof.
  destruct list as [l|]; [|reflexivity]. cbn [afterList].
  revert md. induction l as [|entry l IH]; intros md H; cbn [fold_left]; [reflexivity|].
  assert (Ho : metadata.origin (afterEntry md entry) = metadata.origin md).
  { rewrite afterEntry_origin, clearsOrigin_falsy; auto. }
  rewrite IH; rewrite Ho; auto.
Qed.

Lemma firstAvailable_available (m : Storages) (k : StorageType) :
  firstAvailable m = Some k ->
  exists s, storagesGet k m = Some s /\ StorageData.available s = true.
Proof.
  unfold firstAvailable. intros H. apply find_some in H as [_ H].
  destruct (storagesGet k m) as [s|]; [|discriminate].
  exists s. split; [reflexivity|exact H].
Qed.

Lemma selectDefaultStorage_run (md : metadata.t) :
  selectDefaultStorage md
  = if originFalsy (metadata.origin md) then
      match firstAvailable (metadata.storages md) with
      | Some storage =>
          match selectStorage storage md with
          | (r, md', log) => (r, md', [] ++ log)
          end
      | None => (Return tt, md, [])
      end
    else (Return tt, md, []).
Proof.
  unfold selectDefaultStorage, bind, get.
  destruct (originFalsy (metadata.origin md)); [|reflexivity].
  destruct (firstAvailable (metadata.storages md)); reflexivity.
Qed.

(** The file context after the default selection. *)
Lemma selectDefaultStorage_exec (md : metadata.t) :
  metadata.storages (exec selectDefaultStorage md) = metadata.storages md
  /\ metadata.origin (exec selectDefaultStorage md)
     = if originFalsy (metadata.origin md) then
         match firstAvailable (metadata.storages md) with
         | Some storage => OStorage storage
         | None => metadata.origin md
         end
       else metadata.origin md.
Proof.
  unfold exec. rewrite selectDefaultStorage_run.
  destruct (originFalsy (metadata.origin md)); [|split; reflexivity].
  destruct (firstAvailable (metadata.storages md)) as [k|] eqn:Hk; [|split; reflexivity].
  destruct (firstAvailable_available _ _ Hk) as [s [Hget Hav]].
  rewrite selectStorage_run, Hget, Hav. split; reflexivity.
Qed.

Lemma updateStorage_then_exec (redraw : bool) (list : option (list Entry.t))
  (md : metadata.t) :
  exec (updateStorage_then redraw list) md
  = exec selectDefaultStorage (afterList list md).
Proof.
  unfold exec, updateStorage_then, bind at 1.
  destruct (updateStorageList_run redraw list md) as [[redrawTabs redrawDetails] ->].
  unfold bind at 1.
  destruct (selectDefaultStorage (afterList list md)) as [[[[]|e] md1] log1];
    [|reflexivity].
  destruct redrawTabs; reflexivity.
Qed.

(** The file context after the callback, when no origin was selected. *)
Lemma updateStorage_selects_first_available
  (redraw : bool) (list : option (list Entry.t)) (md : metadata.t) :
  originFalsy (metadata.origin md) = true ->
  let md' := exec (updateStorage_then redraw list) md in
  metadata.storages md' = mergeStorageList list (metadata.storages md)
  /\ metadata.origin md'
     = match firstAvailable (metadata.storages md') with
       | Some storage => OStorage storage
       | None => metadata.origin md
       end.
Proof.
  intros Hfalsy. cbv zeta. rewrite updateStorage_then_exec.
  destruct (selectDefaultStorage_exec (afterList list md)) as [Hs Ho].
  rewrite Hs, Ho, afterList_storages, afterList_origin_falsy, Hfalsy by exact Hfalsy.
  split; reflexivity.
Qed.

(** *** The first poll *)

Lemma storagesGet_In (k : StorageType) (v : StorageData.t) (m : Storages) :
  storagesGet k m = Some v -> In k (Object_keys m).
Proof.
  induction m as [|[k' v'] r IH]; simpl; [discriminate|].
  destruct (StorageType_eqb k' k) eqn:Hk.
  - apply StorageType_eqb_eq in Hk. auto.
  - auto.
Qed.

Lemma storagesSet_fresh (k : StorageType) (v : StorageData.t) (m : Storages) :
  ~ In k (Object_keys m) -> storagesSet k v m = m ++ [(k, v)].
Proof.
  induction m as [|[k' v'] r IH]; simpl; intros Hnot; [reflexivity|].
  destruct (StorageType_eqb k' k) eqn:Hk.
  - apply StorageType_eqb_eq in Hk. tauto.
  - rewrite IH by tauto. reflexivity.
Qed.

(** Entries of distinct types, none of them cached, are appended in the
    order of the list. *)
Lemma mergeStorageList_fresh (l : list Entry.t) (m : Storages) :
  NoDup (Object_keys m ++ map Entry.type l) ->
  mergeStorageList (Some l) m
  = m ++ map (fun entry => (Entry.type entry, storageDataOf entry)) l.
Proof.
  cbn [mergeStorageList]. revert m.
  induction l as [|entry l IH]; intros m Hnd; cbn [fold_left map].
  - rewrite app_nil_r. reflexivity.
  - assert (Hfresh : ~ In (Entry.type entry) (Object_keys m)).
    { intros Hin. apply NoDup_remove_2 in Hnd. apply Hnd.
      apply in_or_app. left. exact Hin. }
    rewrite storagesSet_fresh by exact Hfresh.
    rewrite IH.
    + rewrite <- app_assoc. reflexivity.
    + unfold Object_keys in *. rewrite map_app, <- app_assoc. exact Hnd.
Qed.

Lemma storagesGet_NoDup (m : Storages) (k : StorageType) (v : StorageData.t) :
  NoDup (Object_keys m) -> In (k, v) m -> storagesGet k m = Some v.
Proof.
  induction m as [|[k' v'] r IH]; simpl; intros Hnd Hin; [contradiction|].
  apply NoDup_cons_iff in Hnd as [Hnot Hnd].
  destruct Hin as [[= -> ->]|Hin].
  - rewrite StorageType_eqb_refl. reflexivity.
  - destruct (StorageType_eqb k' k) eqn:Hk.
    + apply StorageType_eqb_eq in Hk. subst k'.
      exfalso. apply Hnot. apply (in_map fst) in Hin. exact Hin.
    + apply IH; assumption.
Qed.

Lemma find_map_fst (p : StorageType -> bool) (q : StorageType * StorageData.t -> bool)
  (m : Storages) :
  (forall kv, In kv m -> p (fst kv) = q kv) ->
  find p (map fst m) = option_map fst (find q m).
Proof.
  induction m as [|kv r IH]; simpl; intros Hpq; [reflexivity|].
  rewrite <- (Hpq kv) by auto.
  destruct (p (fst kv)); [reflexivity|].
  apply IH. intros kv' Hin. apply Hpq. auto.
Qed.

(** With distinct keys, the first available key is the key of the first
    available pair. *)
Lemma firstAvailable_pairs (m : Storages) :
  NoDup (Object_keys m) ->
  firstAvailable m = option_map fst (find (fun kv => StorageData.available (snd kv)) m).
Proof.
  intros Hnd. unfold firstAvailable, Object_keys.
  apply find_map_fst. intros [k v] Hin. cbn [fst snd].
  rewrite (storagesGet_NoDup m k v Hnd Hin). reflexivity.
Qed.

Lemma find_available_entries (l : list Entry.t) :
  option_map fst
    (find (fun kv => StorageData.available (snd kv))
       (map (fun entry => (Entry.type entry, storageDataOf entry)) l))
  = firstAvailableEntry l.
Proof.
  unfold firstAvailableEntry.
  induction l as [|entry l IH]; cbn [map find]; [reflexivity|].
  cbn [snd storageDataOf StorageData.available].
  destruct (Entry.available entry); [reflexivity|exact IH].
Qed.

(** With nothing cached, a response that lists each storage type once is
    cached in the order of its list. *)
Lemma first_poll_firstAvailable (l : list Entry.t) :
  NoDup (map Entry.type l) ->
  firstAvailable (mergeStorageList (Some l) []) = firstAvailableEntry l.
Proof.
  intros Hnd.
  rewrite mergeStorageList_fresh by exact Hnd. cbn [app].
  rewrite firstAvailable_pairs.
  - apply find_available_entries.
  - unfold Object_keys. rewrite map_map. cbn [fst]. exact Hnd.
Qed.

(** C6, as the code has it. When no origin is selected, the callback of the
    storage poll selects the first storage, in the order of the keys of the
    cached map [metadata.storages] after the entries of the response were
    assigned to it, whose cached [available] is true, and selects none when
    no cached storage is available.  When nothing was cached and the
    response lists each storage type once, that storage is the first
    available entry in the order of the list of the response. *)
Theorem updateStorage_selects_first_cached_available
  (redraw : bool) (list : option (list Entry.t)) (md : metadata.t) :
  originFalsy (metadata.origin md) = true ->
  let md' := exec (updateStorage_then redraw list) md in
  metadata.storages md' = mergeStorageList list (metadata.storages md)
  /\ metadata.origin md'
     = match firstAvailable (metadata.storages md') with
       | Some storage => OStorage storage
       | None => metadata.origin md
       end
  /\ (forall l,
         list = Some l -> metadata.storages md = [] -> NoDup (map Entry.type l) ->
         firstAvailable (metadata.storages md') = firstAvailableEntry l).
Proof.
  intros Hfalsy. cbv zeta.
  destruct (updateStorage_selects_first_available redraw list md Hfalsy) as [Hs Ho].
  split; [exact Hs|]. split; [exact Ho|].
  intros l -> Hempty Hnd. rewrite Hs, Hempty.
  apply first_poll_firstAvailable. exact Hnd.
Qed.

Lemma updateStorage_selects_first_cached_available_witness :
  let md' := exec (updateStorage_then false (Some [usbEntry false; localEntry true]))
               (metadata.initial false) in
  metadata.storages md'
  = [(USB, storageDataOf (usbEntry false)); (LOCAL, storageDataOf (localEntry true))]
  /\ metadata.origin md' = OStorage LOCAL
  /\ firstAvailable (metadata.storages md') = Some LOCAL.
Proof.
  destruct (updateStorage_selects_first_cached_available false
              (Some [usbEntry false; localEntry true]) (metadata.initial false) eq_refl)
    as [Hs [Ho Hfirst]].
  split; [exact Hs|]. split; [exact Ho|].
  apply (Hfirst [usbEntry false; localEntry true] eq_refl eq_refl).
  repeat constructor; simpl; intuition discriminate.
Defined.

(** C6 fails as stated: the storage selected is not always the first
    available one in the order of the list of the response.  A first poll
    reports USB and then LOCAL, both away, so that no origin is selected; the
    next poll reports LOCAL and then USB, both available, and USB is
    selected, because its key was inserted first. *)
Lemma updateStorage_selects_in_cache_order_not_list_order :
  let md1 := exec (updateStorage_then false (Some [usbEntry false; localEntry false]))
               (metadata.initial false) in
  let response := [localEntry true; usbEntry true] in
  let md2 := exec (updateStorage_then false (Some response)) md1 in
  originFalsy (metadata.origin md1) = true
  /\ firstAvailableEntry response = Some LOCAL
  /\ metadata.origin md2 = OStorage USB.
Proof. cbv zeta. repeat split. Qed.

(** *** The selected origin names an available storage *)

Lemma afterEntry_originAvailable (entry : Entry.t) (md : metadata.t) :
  originAvailable md = true -> originAvailable (afterEntry md entry) = true.
Proof.
  unfold originAvailable. rewrite afterEntry_origin.
  destruct (clearsOrigin entry md) eqn:Hclear; [reflexivity|].
  destruct (metadata.origin md) as [| |t] eqn:Ho; try reflexivity.
  intros Hav.
  assert (Hs : metadata.storages (afterEntry md entry)
               = storagesSet (Entry.type entry) (storageDataOf entry)
                   (metadata.storages md)).
  { unfold afterEntry. rewrite Hclear. reflexivity. }
  rewrite Hs.
  destruct (StorageType_eqb t (Entry.type entry)) eqn:Ht.
  - apply StorageType_eqb_eq in Ht. subst t.
    rewrite storagesGet_set_same.
    unfold clearsOrigin in Hclear. rewrite Ho in Hclear.
    destruct (storagesGet (Entry.type entry) (metadata.storages md)) as [s|];
      [|discriminate].
    cbn [originIs] in Hclear. rewrite StorageType_eqb_refl, Hav in Hclear.
    cbn [storageDataOf StorageData.available].
    destruct (Entry.available entry); [reflexivity|discriminate].
  - rewrite storagesGet_set_other; [exact Hav|].
    intros ->. rewrite StorageType_eqb_refl in Ht. discriminate.
Qed.

Lemma afterList_originAvailable (list : option (list Entry.t)) (md : metadata.t) :
  originAvailable md = true -> originAvailable (afterList list md) = true.
Proof.
  destruct list as [l|]; [|auto]. cbn [afterList].
  revert md. induction l as [|entry l IH]; intros md H; cbn [fold_left]; [exact H|].
  apply IH, afterEntry_originAvailable, H.
Qed.

Lemma selectDefaultStorage_originAvailable (md : metadata.t) :
  originAvailable md = true -> originAvailable (exec selectDefaultStorage md) = true.
Proof.
  intros H. destruct (selectDefaultStorage_exec md) as [Hs Ho].
  unfold originAvailable in *. rewrite Hs, Ho.
  destruct (originFalsy (metadata.origin md)); [|exact H].
  destruct (firstAvailable (metadata.storages md)) as [k|] eqn:Hk; [|exact H].
  destruct (firstAvailable_available _ _ Hk) as [s [-> Hav]]. exact Hav.
Qed.

Lemma updateStorage_then_originAvailable (redraw : bool) (list : option (list Entry.t))
  (md : metadata.t) :
  originAvailable md = true ->
  originAvailable (exec (updateStorage_then redraw list) md) = true.
Proof.
  intros H. rewrite updateStorage_then_exec.
  apply selectDefaultStorage_originAvailable, afterList_originAvailable, H.
Qed.

Lemma selectStorage_originAvailable (origin : StorageType) (md : metadata.t) :
  originAvailable md = true -> originAvailable (exec (selectStorage origin) md) = true.
Proof.
  intros H. unfold exec. rewrite selectStorage_run.
  destruct (storagesGet origin (metadata.storages md)) as [s|] eqn:Hget; [|exact H].
  destruct (StorageData.available s) eqn:Hav; [|exact H].
  unfold originAvailable. cbn. rewrite Hget. exact Hav.
Qed.

(** The handlers that write neither [metadata.origin] nor
    [metadata.storages]. *)
Lemma updateFiles_frame (force : bool) (md : metadata.t) :
  metadata.origin (exec (updateFiles force) md) = metadata.origin md
  /\ metadata.storages (exec (updateFiles force) md) = metadata.storages md
  /\ metadata.current_path (exec (updateFiles force) md) = metadata.current_path md.
Proof.
  unfold exec. rewrite updateFiles_run.
  destruct (storagesGetOrigin _ _); [destruct force|]; repeat split.
Qed.

Lemma updateFiles_then_frame (localeCompare : string -> string -> Z)
  (filesNode : bool) (lastETag : ETag) (result : FilesResult.t) (md : metadata.t) :
  let md' := exec (updateFiles_then localeCompare filesNode lastETag result) md in
  metadata.origin md' = metadata.origin md
  /\ metadata.storages md' = metadata.storages md.
Proof.
  cbv zeta. unfold exec. rewrite updateFiles_then_run.
  destruct (ETag_eqb _ _); [split; reflexivity|].
  destruct (FilesResult.data result);
    [destruct filesNode; [destruct (sortFiles _ _ _)|]|]; split; reflexivity.
Qed.

(** [redrawFiles] writes [metadata.files] and nothing else. *)
Lemma redrawFiles_frame (localeCompare : string -> string -> Z) (filesNode : bool)
  (md : metadata.t) :
  let md' := exec (redrawFiles localeCompare filesNode) md in
  metadata.origin md' = metadata.origin md
  /\ metadata.current_path md' = metadata.current_path md
  /\ metadata.storages md' = metadata.storages md
  /\ metadata.eTag md' = metadata.eTag md
  /\ metadata.sort md' = metadata.sort md.
Proof.
  cbv zeta. unfold exec. rewrite redrawFiles_run.
  destruct filesNode; [destruct (sortFiles _ _ _)|]; repeat split.
Qed.

Lemma originAvailable_frame (md md' : metadata.t) :
  metadata.origin md' = metadata.origin md ->
  metadata.storages md' = metadata.storages md ->
  originAvailable md = true -> originAvailable md' = true.
Proof. unfold originAvailable. intros -> ->. auto. Qed.

Lemma exec_bind_modify {A : Type} (f : metadata.t -> metadata.t) (k : M A)
  (md : metadata.t) :
  exec (modify f ;; k) md = exec k (f md).
Proof.
  unfold exec, bind, modify. destruct (k (f md)) as [[r md2] log2]. reflexivity.
Qed.

Lemma exec_bind_emit {A : Type} (e : Event) (k : M A) (md : metadata.t) :
  exec (emit e ;; k) md = exec k md.
Proof.
  unfold exec, bind, emit. destruct (k md) as [[r md2] log2]. reflexivity.
Qed.

Lemma exec_bind_get {A : Type} (k : metadata.t -> M A) (md : metadata.t) :
  exec (x <- get ;; k x) md = exec (k md) md.
Proof.
  unfold exec, bind, get. destruct (k md md) as [[r md2] log2]. reflexivity.
Qed.

Lemma exec_updateFiles_ret (force : bool) (md : metadata.t) :
  exec (updateFiles force ;; ret tt) md = exec (updateFiles force) md.
Proof.
  unfold exec, bind. rewrite updateFiles_run.
  destruct (storagesGetOrigin _ _); [destruct force|]; reflexivity.
Qed.

Lemma runHandler_originAvailable (localeCompare : string -> string -> Z)
  (printer : PrinterType) (h : Handler) (md : metadata.t) :
  originAvailable md = true ->
  originAvailable (exec (runHandler localeCompare printer h) md) = true.
Proof.
  intros H. destruct h as [| |redraw list|filesNode lastETag result|origin|path| |field'];
    cbn [runHandler].
  - unfold load. rewrite exec_bind_modify. unfold updateStorage.
    rewrite exec_bind_emit, exec_updateFiles_ret.
    destruct (updateFiles_frame false (metadata.set_eTag ENull md)) as [Ho [Hs _]].
    eapply originAvailable_frame; [exact Ho|exact Hs|exact H].
  - unfold update, updateStorage. rewrite exec_bind_emit, exec_updateFiles_ret.
    destruct (updateFiles_frame false md) as [Ho [Hs _]].
    eapply originAvailable_frame; [exact Ho|exact Hs|exact H].
  - apply updateStorage_then_originAvailable, H.
  - destruct (updateFiles_then_frame localeCompare filesNode lastETag result md)
      as [Ho Hs].
    eapply originAvailable_frame; [exact Ho|exact Hs|exact H].
  - apply selectStorage_originAvailable, H.
  - unfold onClickFolder. rewrite exec_bind_get, exec_bind_modify.
    unfold clearFiles. rewrite exec_bind_emit, exec_updateFiles_ret.
    match goal with
    | |- originAvailable (exec (updateFiles true) ?m) = true =>
        destruct (updateFiles_frame true m) as [Ho [Hs _]];
        eapply originAvailable_frame; [exact Ho|exact Hs|exact H]
    end.
  - unfold onClickUp. rewrite exec_bind_modify.
    unfold clearFiles. rewrite exec_bind_emit, exec_updateFiles_ret.
    match goal with
    | |- originAvailable (exec (updateFiles true) ?m) = true =>
        destruct (updateFiles_frame true m) as [Ho [Hs _]];
        eapply originAvailable_frame; [exact Ho|exact Hs|exact H]
    end.
  - unfold onClickSort. rewrite exec_bind_get, exec_bind_modify.
    unfold clearFiles. rewrite exec_bind_emit.
    match goal with
    | |- originAvailable (exec (redrawFiles _ _) ?m) = true =>
        destruct (redrawFiles_frame localeCompare true m) as (Ho & _ & Hs & _);
        eapply originAvailable_frame; [exact Ho|exact Hs|exact H]
    end.
Qed.

(** Every file context a run of the page goes through has its origin unset
    or on an available storage. *)
Lemma reachable_originAvailable (localeCompare : string -> string -> Z)
  (printer : PrinterType) (nameSortingOnly : bool) (md : metadata.t) :
  reachable localeCompare printer nameSortingOnly md -> originAvailable md = true.
Proof.
  induction 1 as [|md h _ IH]; [destruct nameSortingOnly; reflexivity|].
  apply runHandler_originAvailable, IH.
Qed.

(** An entry that reports the selected storage away clears the origin, and
    the rest of the loop leaves it cleared. *)
Lemma afterList_clears_origin (l : list Entry.t) (md : metadata.t)
  (t : StorageType) (entry : Entry.t) :
  originAvailable md = true ->
  metadata.origin md = OStorage t ->
  In entry l -> Entry.type entry = t -> Entry.available entry = false ->
  metadata.origin (afterList (Some l) md) = OFalse.
Proof.
  cbn [afterList]. revert md.
  induction l as [|x l IH]; intros md Hinv Ho Hin Ht Hav; [destruct Hin|].
  cbn [fold_left].
  destruct (clearsOrigin x md) eqn:Hclear.
  - pose proof (afterList_origin_falsy (Some l) (afterEntry md x)) as Hkeep.
    cbn [afterList] in Hkeep. rewrite Hkeep; rewrite afterEntry_origin, Hclear;
      reflexivity.
  - destruct Hin as [->|Hin].
    + exfalso. unfold originAvailable in Hinv. unfold clearsOrigin in Hclear.
      rewrite Ho in Hinv, Hclear. rewrite Ht in Hclear.
      destruct (storagesGet t (metadata.storages md)) as [s|]; [|discriminate].
      cbn [originIs] in Hclear.
      rewrite Hinv, Hav, StorageType_eqb_refl in Hclear. discriminate.
    + apply IH; auto.
      * apply afterEntry_originAvailable, Hinv.
      * rewrite afterEntry_origin, Hclear. exact Ho.
Qed.

(** C9. From every file context a run of the page goes through, the callback
    of a storage poll leaves the selected origin unset or on a storage whose
    cached [available] is true.  If the response reports the selected
    storage away, the loop over the response clears the origin, and the
    default selection that follows picks the first available storage of the
    cache, if there is one. *)
Theorem storage_poll_keeps_origin_available
  (localeCompare : string -> string -> Z) (printer : PrinterType)
  (nameSortingOnly : bool)
  (md : metadata.t) (redraw : bool) (list : option (list Entry.t)) :
  reachable localeCompare printer nameSortingOnly md ->
  let md' := exec (updateStorage_then redraw list) md in
  originAvailable md' = true
  /\ (forall l t entry,
         list = Some l -> metadata.origin md = OStorage t ->
         In entry l -> Entry.type entry = t -> Entry.available entry = false ->
         metadata.origin (exec (updateStorageList redraw list) md) = OFalse
         /\ metadata.origin md'
            = match firstAvailable (metadata.storages md') with
              | Some storage => OStorage storage
              | None => OFalse
              end).
Proof.
  intros Hreach. apply reachable_originAvailable in Hreach as Hinv. cbv zeta.
  split; [apply updateStorage_then_originAvailable, Hinv|].
  intros l t entry -> Ho Hin Ht Hav.
  pose proof (afterList_clears_origin l md t entry Hinv Ho Hin Ht Hav) as Hclear.
  split.
  - unfold exec.
    destruct (updateStorageList_run redraw (Some l) md) as [flags ->]. exact Hclear.
  - rewrite updateStorage_then_exec.
    destruct (selectDefaultStorage_exec (afterList (Some l) md)) as [Hs Hsel].
    rewrite Hs, Hsel, Hclear. reflexivity.
Qed.

Lemma storage_poll_keeps_origin_available_witness :
  let md := exec (runHandler codeUnitCompare sla
                    (HUpdateStorageThen true (Some [localEntry true; usbEntry true])))
              (metadata.initial false) in
  let list := Some [localEntry false; usbEntry true] in
  let md' := exec (updateStorage_then false list) md in
  metadata.origin md = OStorage LOCAL
  /\ originAvailable md' = true
  /\ metadata.origin (exec (updateStorageList false list) md) = OFalse
  /\ metadata.origin md' = OStorage USB.
Proof.
  cbv zeta.
  pose proof (storage_poll_keeps_origin_available codeUnitCompare sla false
                (exec (runHandler codeUnitCompare sla
                         (HUpdateStorageThen true (Some [localEntry true; usbEntry true])))
                   (metadata.initial false))
                false (Some [localEntry false; usbEntry true])
                (reachable_step codeUnitCompare sla false (metadata.initial false)
                   (HUpdateStorageThen true (Some [localEntry true; usbEntry true]))
                   (reachable_initial codeUnitCompare sla false))) as [Hinv Hclear].
  destruct (Hclear [localEntry false; usbEntry true] LOCAL (localEntry false)
              eq_refl eq_refl (or_introl eq_refl) eq_refl eq_refl) as [Hloop Hsel].
  split; [reflexivity|].
  split; [exact Hinv|].
  split; [exact Hloop|exact Hsel].
Defined.

(** ** The direct upload widget *)

Section WidgetFacts.
Variable translate : string -> option string -> string.

(** While [isUploading] is set, a change of the file input starts nothing. *)
Lemma change_while_uploading_ignored (st : Direct.State) (files : list Direct.File)
  (checked : option bool) :
  Direct.isUploading st = true ->
  Direct.step translate st (Direct.Change files checked) = st.
Proof.
  intros H. cbn [Direct.step].
  destruct (Direct.onchange st) as [[origin path]|]; [|reflexivity].
  unfold Direct.input_onchange. rewrite H.
  destruct files; reflexivity.
Qed.

(** [isUploading] goes back to false only when a request settles. *)
Lemma isUploading_cleared_only_by_settlement (st : Direct.State) (i : Direct.Input) :
  Direct.isUploading st = true ->
  Direct.isUploading (Direct.step translate st i) = false ->
  exists n s u, i = Direct.Settled n s /\ nth_error (Direct.inFlight st) n = Some u.
Proof.
  intros Hup Hdown. destruct i as [origin path|files checked|n|n pct|n s].
  - cbn [Direct.step] in Hdown. unfold Direct.init, Direct.initInput in Hdown.
    destruct (Direct.inputValue st); cbn in Hdown; rewrite Hup in Hdown;
      cbn in Hdown; discriminate.
  - rewrite change_while_uploading_ignored in Hdown by exact Hup. congruence.
  - cbn [Direct.step] in Hdown.
    destruct (nth_error (Direct.reading st) n); [discriminate|congruence].
  - cbn [Direct.step] in Hdown.
    destruct (nth_error (Direct.inFlight st) n); [discriminate|congruence].
  - cbn [Direct.step] in Hdown.
    destruct (nth_error (Direct.inFlight st) n) as [u|] eqn:Hu; [|congruence].
    exists n, s, u. split; [reflexivity|exact Hu].
Qed.

(** When a request settles, fulfilled or rejected, the widget is reset. *)
Lemma settlement_resets_widget (st : Direct.State) (n : nat) (s : Direct.Settlement)
  (u : Direct.Upload) :
  nth_error (Direct.inFlight st) n = Some u ->
  let st' := Direct.step translate st (Direct.Settled n s) in
  Direct.isUploading st' = false
  /\ Direct.progress st' = 0%Z
  /\ Direct.widget st' = option_map (fun _ => "choose") (Direct.widget st)
  /\ Direct.progressEl st' = option_map (fun _ => 0%Z) (Direct.progressEl st).
Proof.
  intros Hu. cbv zeta. cbn [Direct.step]. rewrite Hu.
  destruct s as [|[r|]]; cbn; destruct (Direct.widget st), (Direct.progressEl st);
    repeat split.
Qed.

Lemma length_removeAt {A : Type} (n : nat) (l : list A) (x : A) :
  nth_error l n = Some x -> S (List.length (Direct.removeAt n l)) = List.length l.
Proof.
  revert n. induction l as [|y l IH]; intros [|n] H; simpl in *; try discriminate.
  - reflexivity.
  - rewrite (IH n H). reflexivity.
Qed.

(** As long as the input does not change while a file is being read, at most
    one upload is in flight. *)
Lemma oneAtATime_step (st : Direct.State) (i : Direct.Input) :
  Direct.oneAtATime st ->
  (forall files checked, i = Direct.Change files checked -> Direct.reading st = []) ->
  Direct.oneAtATime (Direct.step translate st i).
Proof.
  unfold Direct.oneAtATime. intros [Hone Hflag] Hquiet.
  destruct i as [origin path|files checked|n|n pct|n s]; cbn [Direct.step].
  - unfold Direct.init, Direct.initInput.
    destruct (Direct.inputValue st); cbn [Direct.isUploading];
      destruct (Direct.isUploading st) eqn:Hup; cbn; rewrite ?Hup; auto.
  - pose proof (Hquiet files checked eq_refl) as Hreading.
    destruct (Direct.onchange st) as [[origin path]|]; [|split; assumption].
    unfold Direct.input_onchange.
    destruct files as [|file' files]; [split; assumption|].
    destruct (Direct.isUploading st) eqn:Hup; cbn [negb]; [split; auto|].
    destruct (Direct.inFlight st) as [|u r] eqn:Hin.
    + cbn. rewrite Hreading, Hin. cbn. split; [lia|congruence].
    + assert (false = true) by (apply Hflag; discriminate). discriminate.
  - destruct (nth_error (Direct.reading st) n) as [u|] eqn:Hu; [|auto].
    apply length_removeAt in Hu. cbn. rewrite length_app. cbn.
    split; [lia|reflexivity].
  - destruct (nth_error (Direct.inFlight st) n) as [u|] eqn:Hu; [|auto].
    cbn. split; [exact Hone|reflexivity].
  - destruct (nth_error (Direct.inFlight st) n) as [u|] eqn:Hu; [|auto].
    apply length_removeAt in Hu.
    assert (Hrm : Direct.removeAt n (Direct.inFlight st) = []).
    { destruct (Direct.removeAt n (Direct.inFlight st)); [reflexivity|].
      cbn in Hu. lia. }
    destruct s as [|[r|]]; cbn; rewrite Hrm; cbn; (split; [lia|congruence]).
Qed.

(** C8. When an upload request fails, the error path makes exactly one call:
    [handleError] on the result of the rejection when there is one, and
    otherwise the error toast with the label of an unsuccessful upload for
    the name of the file. *)
Theorem upload_failure_reports_once (st : Direct.State) (n : nat)
  (u : Direct.Upload) (result : option Direct.ErrorResult) :
  nth_error (Direct.inFlight st) n = Some u ->
  Direct.effects (Direct.step translate st (Direct.Settled n (Direct.Rejected result)))
  = Direct.effects st
    ++ [match result with
        | Some r => Direct.handleError r
        | None =>
            Direct.error (translate "ntf.error" None)
              (translate "ntf.upld-unsuc" (Some (Direct.fileName (Direct.file u))))
        end].
Proof.
  intros Hu. cbn [Direct.step]. rewrite Hu. destruct result; reflexivity.
Qed.

(** C10. The widget does not keep uploads apart: [isUploading] is set when
    the file has been read, not when the input changes.  Two changes of the
    input before the first file is read both pass the test on
    [isUploading], and both files are uploaded at the same time; when the
    first request settles, [isUploading] is false while the second is still
    in flight. *)
Theorem two_uploads_in_flight :
  let st := Direct.run translate widgetAtLoad twoChanges in
  let st' := Direct.step translate st (Direct.Settled 0 Direct.Fulfilled) in
  Direct.inFlight st
  = [Direct.mkUpload fileA "/api/v1/files/local//a.gcode" false;
     Direct.mkUpload fileB "/api/v1/files/local//b.gcode" true]
  /\ Direct.effects st
     = [Direct.uploadRequest "/api/v1/files/local//a.gcode" false;
        Direct.uploadRequest "/api/v1/files/local//b.gcode" true]
  /\ Direct.isUploading st = true
  /\ Direct.inFlight st' = [Direct.mkUpload fileB "/api/v1/files/local//b.gcode" true]
  /\ Direct.isUploading st' = false.
Proof. cbv zeta. repeat split. Qed.
End WidgetFacts.

Lemma upload_failure_reports_once_witness :
  let st := Direct.run translateKey widgetAtLoad
              [Direct.Init "local" EmptyString; Direct.Change [fileA] None; Direct.ArrayBufferRead 0] in
  Direct.effects (Direct.step translateKey st (Direct.Settled 0 (Direct.Rejected None)))
  = [Direct.uploadRequest "/api/v1/files/local//a.gcode" false;
     Direct.error "ntf.error" "ntf.upld-unsuc: a.gcode"].
Proof.
  apply (upload_failure_reports_once translateKey
           (Direct.run translateKey widgetAtLoad
              [Direct.Init "local" EmptyString; Direct.Change [fileA] None; Direct.ArrayBufferRead 0])
           0 (Direct.mkUpload fileA "/api/v1/files/local//a.gcode" false) None).
  reflexivity.
Defined.

(** * Further properties of the code *)

(** ** [findFile] and [getInitialMetadataFiles] *)

Lemma walkSegments_last_segment (pathSegments : list string)
  (target : option FileSystemNode) (t : FileSystemNode) :
  walkSegments target pathSegments = Return (Some t) ->
  pathSegments <> [] ->
  name t = last pathSegments EmptyString.
Proof.
  revert target. induction pathSegments as [|segment rest IH]; intros target H Hne.
  - contradiction.
  - destruct target as [t0|]; cbn [walkSegments] in H; [|discriminate].
    destruct (children t0) as [cs|]; [|discriminate].
    destruct rest as [|segment' rest].
    + cbn in H. injection H as H. apply find_some in H as [_ H].
      apply String.eqb_eq in H. exact H.
    + change (last (segment :: segment' :: rest) EmptyString)
        with (last (segment' :: rest) EmptyString).
      eapply IH; [exact H|discriminate].
Qed.

(** X1. A node [findFile] returns is a machinecode node; when the path has
    segments to walk, its name is the last of them, and when it has none,
    the node is the first entry of [metadata.files] with the origin asked
    for. *)
Theorem findFile_returns_last_segment (printer : PrinterType)
  (files : list FileSystemNode) (origin' path' : string) (t : FileSystemNode) :
  findFile printer files origin' path' = Return (Some t) ->
  isMachinecode t = true
  /\ (pathSegmentsOf printer path' <> [] ->
      name t = last (pathSegmentsOf printer path') EmptyString)
  /\ (pathSegmentsOf printer path' = [] ->
      find (fun i => origin i =? origin') files = Some t).
Proof.
  intros H. split; [exact (findFile_returns_machinecode _ _ _ _ _ H)|].
  unfold findFile in H.
  destruct (negb (truthy_string origin') || negb (truthy_string path')); [discriminate|].
  destruct (walkSegments _ _) as [[t'|]|e] eqn:Hwalk; try discriminate.
  destruct (isMachinecode t'); [|discriminate].
  injection H as ->. split.
  - intros Hne. exact (walkSegments_last_segment _ _ _ Hwalk Hne).
  - intros Hnil. rewrite Hnil in Hwalk. cbn in Hwalk. congruence.
Qed.

Lemma findFile_returns_last_segment_witness :
  isMachinecode leafFile = true
  /\ (pathSegmentsOf sla "/a.gcode" <> [] ->
      name leafFile = last (pathSegmentsOf sla "/a.gcode") EmptyString)
  /\ (pathSegmentsOf sla "/a.gcode" = [] ->
      find (fun i => origin i =? "local") [rootWithLeaf] = Some leafFile).
Proof.
  apply (findFile_returns_last_segment sla [rootWithLeaf] "local" "/a.gcode" leafFile).
  reflexivity.
Defined.

(** X2. [findFile] returns [null], and does not throw, when the origin or
    the path is empty or when no entry of [metadata.files] has the origin
    asked for, whatever the path. *)
Theorem findFile_null_without_root (printer : PrinterType)
  (files : list FileSystemNode) (origin' path' : string) :
  origin' = EmptyString \/ path' = EmptyString
  \/ (forall i, In i files -> origin i <> origin') ->
  findFile printer files origin' path' = Return None.
Proof.
  intros H. unfold findFile.
  destruct (negb (truthy_string origin') || negb (truthy_string path')) eqn:Hfalsy;
    [reflexivity|].
  apply orb_false_elim in Hfalsy as [Ho Hp].
  destruct H as [->|[->|Hnone]]; try discriminate.
  assert (Hfind : find (fun i => origin i =? origin') files = None).
  { destruct (find _ files) as [i|] eqn:Hfind; [|reflexivity].
    apply find_some in Hfind as [Hin Heq]. apply String.eqb_eq in Heq.
    exfalso. exact (Hnone i Hin Heq). }
  rewrite Hfind, walkSegments_no_target. reflexivity.
Qed.

Lemma findFile_null_without_root_witness :
  findFile fdm [rootWithLeaf] "usb" "/usb/a.gcode/b" = Return None.
Proof.
  apply findFile_null_without_root. right. right.
  intros i [<-|[]]. discriminate.
Defined.

Lemma split_nonempty (sep : ascii) (s : string) : split sep s <> [].
Proof.
  destruct s as [|c rest]; cbn [split]; [discriminate|].
  destruct (Ascii.eqb c sep); [discriminate|].
  destruct (split sep rest); discriminate.
Qed.

Lemma split_trailing_separator (sep : ascii) (s : string) :
  split sep (String.append s (String sep EmptyString))
  = split sep s ++ [EmptyString].
Proof.
  induction s as [|c rest IH]; cbn [String.append split].
  - rewrite Ascii.eqb_refl. reflexivity.
  - destruct (Ascii.eqb c sep).
    + rewrite IH. reflexivity.
    + rewrite IH. pose proof (split_nonempty sep rest) as Hne.
      destruct (split sep rest) as [|seg segs]; [contradiction|reflexivity].
Qed.

Lemma pathSegmentsOf_leading_slash (printer : PrinterType) (path' : string) :
  pathSegmentsOf printer (String "/" path') = pathSegmentsOf printer path'.
Proof. destruct printer; reflexivity. Qed.

Lemma pathSegmentsOf_trailing_slash (printer : PrinterType) (path' : string) :
  pathSegmentsOf printer (String.append path' "/") = pathSegmentsOf printer path'.
Proof.
  unfold pathSegmentsOf. change "/"%string with (String "/"%char EmptyString).
  rewrite split_trailing_separator, filter_app. cbn [filter truthy_string].
  rewrite app_nil_r. reflexivity.
Qed.

(** X3. [findFile] does not see a slash before or after a path: for a path
    that is not empty, the result is the same with a slash added in front
    or at the end. *)
Theorem findFile_ignores_outer_slashes (printer : PrinterType)
  (files : list FileSystemNode) (origin' path' : string) :
  path' <> EmptyString ->
  findFile printer files origin' (String "/" path') = findFile printer files origin' path'
  /\ findFile printer files origin' (String.append path' "/")
     = findFile printer files origin' path'.
Proof.
  intros Hne. unfold findFile.
  rewrite pathSegmentsOf_leading_slash, pathSegmentsOf_trailing_slash.
  destruct path' as [|c rest]; [contradiction|]. split; reflexivity.
Qed.

Lemma findFile_ignores_outer_slashes_witness :
  findFile sla [rootWithLeaf] "local" "/a.gcode" = findFile sla [rootWithLeaf] "local" "a.gcode"
  /\ findFile sla [rootWithLeaf] "local" "a.gcode/" = findFile sla [rootWithLeaf] "local" "a.gcode".
Proof.
  apply (findFile_ignores_outer_slashes sla [rootWithLeaf] "local" "a.gcode").
  discriminate.
Defined.

(** X4. For a printer type other than fdm, [getInitialMetadataFiles] groups
    the listing under the folder root [local], followed by the root [usb]
    exactly when an entry has the origin usb; the entries under the roots
    are the entries whose origin is local or usb, each under the root of its
    origin, and an entry of any other origin is under no root.  For fdm the
    listing is returned as it is. *)
Theorem getInitialMetadataFiles_groups_by_origin (files : list FileSystemNode) :
  getInitialMetadataFiles fdm files = files
  /\ (let roots := getInitialMetadataFiles sla files in
      map name roots
      = (if existsb (fun elm => origin elm =? "usb") files then ["local"; "usb"]
         else ["local"])
      /\ Forall (fun root => isFolder root = true) roots
      /\ childrenOfAll roots
         = filter (fun elm => origin elm =? "local") files
           ++ filter (fun elm => origin elm =? "usb") files
      /\ (forall root elm,
             In root roots -> In elm (childrenWhere (fun _ => true) root) ->
             In elm files /\ origin elm = origin root)).
Proof.
  split; [reflexivity|]. cbv zeta. unfold getInitialMetadataFiles.
  assert (Hex : existsb (fun elm => origin elm =? "usb") files
                = (0 <? List.length (filter (fun elm => (origin elm =? "usb")%string) files))%nat).
  { induction files as [|f files IH]; [reflexivity|]. cbn [existsb filter].
    destruct (origin f =? "usb"); [reflexivity|exact IH]. }
  rewrite Hex.
  assert (Htrue : forall l : list FileSystemNode, filter (fun _ => true) l = l).
  { induction l as [|x l IH]; [reflexivity|]. cbn. rewrite IH. reflexivity. }
  destruct (0 <? List.length (filter (fun elm => (origin elm =? "usb")%string) files))%nat eqn:Husb.
  - split; [reflexivity|]. split; [repeat constructor|]. split.
    + unfold childrenOfAll, childrenWhere. cbn. rewrite !Htrue, app_nil_r. reflexivity.
    + intros root elm [<-|[<-|[]]]; unfold childrenWhere; cbn; rewrite Htrue;
        intros Hin; apply filter_In in Hin as [Hin Ho]; apply String.eqb_eq in Ho; auto.
  - split; [reflexivity|]. split; [repeat constructor|]. split.
    + unfold childrenOfAll, childrenWhere. cbn. rewrite !Htrue.
      destruct (filter (fun elm => origin elm =? "usb") files); [reflexivity|discriminate].
    + intros root elm [<-|[]]; unfold childrenWhere; cbn; rewrite Htrue;
        intros Hin; apply filter_In in Hin as [Hin Ho]; apply String.eqb_eq in Ho; auto.
Qed.

(** ** Sorting and the sort toggles *)

(** X21. For a locale whose [localeCompare] is consistent, for every sort
    field and order, and for every listing whose entries have the display
    name the comparator reads (every listing, when the sort field is the
    date or the size), [sortFiles] returns, and returns a stable reordering
    of the entries: it is a permutation of them, entries the comparator ties
    keep the order they had, no entry that is not a folder stands before a
    folder, and two entries of the same kind stand in the order of their
    date, size or display name, as the sort field says, ascending or
    descending as the sort order says. *)
Theorem sortFiles_orders_displayed_entries
  (localeCompare : string -> string -> Z)
  (localeCompare_antisym :
     forall a b, Z.sgn (localeCompare a b) = (- Z.sgn (localeCompare b a))%Z)
  (localeCompare_trans :
     forall a b c, (localeCompare a b <= 0)%Z -> (localeCompare b c <= 0)%Z ->
                   (localeCompare a c <= 0)%Z)
  (sort : Sort) (files : list FileSystemNode) :
  displayed sort files ->
  exists sorted,
    sortFiles localeCompare sort files = Return sorted
    /\ Permutation files sorted
    /\ (forall z, filter (tie (compareFiles localeCompare sort) z) sorted
                  = filter (tie (compareFiles localeCompare sort) z) files)
    /\ (forall l1 f1 l2 f2 l3,
           sorted = l1 ++ f1 :: l2 ++ f2 :: l3 ->
           (isFolder f2 = true -> isFolder f1 = true)
           /\ (isFolder f1 = isFolder f2 ->
               orderedByField localeCompare sort f1 f2)).
Proof.
  intros Hd.
  pose proof (compareFilesValue_antisym localeCompare sort localeCompare_antisym) as Ha.
  pose proof (compareFilesValue_trans localeCompare sort localeCompare_antisym
                localeCompare_trans) as Ht.
  set (value := compareFilesValue localeCompare sort) in *.
  exists (stableSort value files).
  pose proof (stableSort_perm _ value files) as Hperm.
  split; [apply sortFiles_returns; exact Hd|]. split; [exact Hperm|]. split.
  - intros z.
    assert (Hcase : (readsDisplay sort = true -> display z <> None)
                    \/ (readsDisplay sort = true /\ display z = None)).
    { destruct (readsDisplay sort); [|left; discriminate].
      destruct (display z); [left; discriminate|right; split; reflexivity]. }
    destruct Hcase as [Hz|[Hr Hz]].
    + rewrite !(filter_ext _ _ (compareFiles_tie localeCompare sort z Hz)).
      apply stableSort_stable; assumption.
    + rewrite !(filter_none _ _ _ (compareFiles_no_tie localeCompare sort z Hr Hz)).
      reflexivity.
  - intros l1 f1 l2 f2 l3 Heq.
    pose proof (stableSort_sorted _ value Ha Ht files) as Hs.
    rewrite Heq in Hs.
    apply (compareFilesValue_ordered localeCompare sort localeCompare_antisym).
    + intros Hr. specialize (Hd Hr). rewrite Forall_forall in Hd.
      split; apply Hd; apply (Permutation_in _ (Permutation_sym Hperm));
        rewrite Heq; apply in_or_app; right.
      * left. reflexivity.
      * right. apply in_or_app. right. left. reflexivity.
    + apply (StronglySorted_before _ _ _ _ _ _ Hs).
      apply in_or_app. right. left. reflexivity.
Qed.

Lemma sortFiles_orders_displayed_entries_witness :
  let sort := mkSort "name" "desc" in
  exists sorted,
    sortFiles codeUnitCompare sort listing = Return sorted
    /\ Permutation listing sorted
    /\ (forall z, filter (tie (compareFiles codeUnitCompare sort) z) sorted
                  = filter (tie (compareFiles codeUnitCompare sort) z) listing)
    /\ (forall l1 f1 l2 f2 l3,
           sorted = l1 ++ f1 :: l2 ++ f2 :: l3 ->
           (isFolder f2 = true -> isFolder f1 = true)
           /\ (isFolder f1 = isFolder f2 ->
               orderedByField codeUnitCompare sort f1 f2)).
Proof.
  exact (sortFiles_orders_displayed_entries codeUnitCompare codeUnitCompare_antisym
           codeUnitCompare_trans (mkSort "name" "desc") listing
           (listing_displayed (mkSort "name" "desc"))).
Defined.

(** X5. Sorting is idempotent where it returns: for a consistent
    [localeCompare] and a listing whose entries have the display name the
    comparator reads, [sortFiles] returns, and sorting what it returned,
    with the same field and order, returns it as it is.  A [redrawFiles] on
    such a listing returns, and a second one leaves [metadata] as the first
    one left it; a [redrawFiles] whose sort throws leaves [metadata] as it
    was. *)
Theorem sortFiles_idempotent (localeCompare : string -> string -> Z)
  (localeCompare_antisym :
     forall a b, Z.sgn (localeCompare a b) = (- Z.sgn (localeCompare b a))%Z)
  (localeCompare_trans :
     forall a b c, (localeCompare a b <= 0)%Z -> (localeCompare b c <= 0)%Z ->
                   (localeCompare a c <= 0)%Z)
  (sort : Sort) (files : list FileSystemNode) (md : metadata.t) :
  let redraw := redrawFiles localeCompare true in
  (displayed sort files ->
   exists sorted,
     sortFiles localeCompare sort files = Return sorted
     /\ sortFiles localeCompare sort sorted = Return sorted)
  /\ (displayed (metadata.sort md) (metadata.files md) ->
      outcome redraw md = Return tt
      /\ outcome redraw (exec redraw md) = Return tt
      /\ exec redraw (exec redraw md) = exec redraw md)
  /\ (forall e, outcome redraw md = Throw e -> exec redraw md = md).
Proof.
  assert (Hid : forall s l, displayed s l ->
            sortFiles localeCompare s (stableSort (compareFilesValue localeCompare s) l)
            = Return (stableSort (compareFilesValue localeCompare s) l)).
  { intros s l Hd. rewrite sortFiles_returns.
    - f_equal. apply stableSort_sorted_id. apply stableSort_sorted.
      + apply compareFilesValue_antisym. exact localeCompare_antisym.
      + apply compareFilesValue_trans; assumption.
    - eapply displayed_perm; [apply stableSort_perm|exact Hd]. }
  cbv zeta. split; [|split].
  - intros Hd. exists (stableSort (compareFilesValue localeCompare sort) files).
    split; [apply sortFiles_returns; exact Hd|apply Hid; exact Hd].
  - intros Hd. unfold exec, outcome. rewrite !redrawFiles_run.
    rewrite (sortFiles_returns localeCompare _ _ Hd). cbn [fst snd].
    rewrite ?redrawFiles_run.
    cbn [metadata.files metadata.sort metadata.set_files].
    rewrite (Hid _ _ Hd). repeat split.
  - intros e. unfold exec, outcome. rewrite redrawFiles_run.
    destruct (sortFiles _ _ _); [discriminate|reflexivity].
Qed.

Lemma sortFiles_idempotent_witness :
  let redraw := redrawFiles codeUnitCompare true in
  let md := metadata.set_files listing browsingLocal in
  (exists sorted,
     sortFiles codeUnitCompare (mkSort "name" "asc") listing = Return sorted
     /\ sortFiles codeUnitCompare (mkSort "name" "asc") sorted = Return sorted)
  /\ (outcome redraw md = Return tt
      /\ outcome redraw (exec redraw md) = Return tt
      /\ exec redraw (exec redraw md) = exec redraw md).
Proof.
  destruct (sortFiles_idempotent codeUnitCompare codeUnitCompare_antisym
              codeUnitCompare_trans (mkSort "name" "asc") listing
              (metadata.set_files listing browsingLocal)) as (Hsort & Hredraw & _).
  split.
  - apply Hsort. apply listing_displayed.
  - apply Hredraw. apply listing_displayed.
Defined.

(** What a click on a sort toggle does, case by case. *)
Lemma onClickSort_run (localeCompare : string -> string -> Z) (field' : string)
  (md : metadata.t) :
  onClickSort localeCompare field' md
  = let sort' :=
      mkSort field'
        (if field (metadata.sort md) =? field'
         then (if order (metadata.sort md) =? "asc" then "desc" else "asc")
         else "asc") in
    match sortFiles localeCompare sort' (metadata.files md) with
    | Return sorted =>
        (Return tt, metadata.set_files sorted (metadata.set_sort sort' md),
         [EvClearFiles; EvRedrawFiles])
    | Throw e => (Throw e, metadata.set_sort sort' md, [EvClearFiles; EvRedrawFiles])
    end.
Proof.
  unfold onClickSort. unfold bind at 1. cbn [get]. unfold bind at 1. cbn [modify].
  unfold clearFiles, bind at 1. cbn [emit]. rewrite redrawFiles_run. cbv zeta.
  cbn [metadata.sort metadata.files metadata.set_sort].
  destruct (sortFiles _ _ _); reflexivity.
Qed.

(** The sort settings after a click, whether its sort returns or throws. *)
Lemma onClickSort_sort (localeCompare : string -> string -> Z) (field' : string)
  (md : metadata.t) :
  metadata.sort (exec (onClickSort localeCompare field') md)
  = mkSort field'
      (if field (metadata.sort md) =? field'
       then (if order (metadata.sort md) =? "asc" then "desc" else "asc")
       else "asc").
Proof.
  unfold exec. rewrite onClickSort_run. cbv zeta.
  destruct (sortFiles _ _ _); reflexivity.
Qed.



(** A click on the date toggle and then on the name toggle, on the listing
    of the fixture; a click on the name toggle over entries without a
    display name throws, with the sort settings written and the listing as
    it was. *)
Example onClickSort_date_twice :
  let md := metadata.set_files listing browsingLocal in
  let md' := exec (onClickSort codeUnitCompare "date") md in
  metadata.sort md' = mkSort "date" "asc"
  /\ map name (metadata.files md') = ["parts"; "archive"; "b.gcode"; "a.gcode"].
Proof. split; reflexivity. Qed.

Example onClickSort_name_without_display :
  let md := metadata.set_files listingWithoutDisplay browsingLocal in
  let click := onClickSort codeUnitCompare "name" in
  outcome click md = Throw TypeError
  /\ metadata.sort (exec click md) = mkSort "name" "asc"
  /\ metadata.files (exec click md) = listingWithoutDisplay
  /\ calls click md = [EvClearFiles; EvRedrawFiles].
Proof. repeat split. Qed.

(** What the loop of the storage poll leaves alone. *)
Lemma afterEntry_frame (entry : Entry.t) (md : metadata.t) :
  metadata.sort (afterEntry md entry) = metadata.sort md
  /\ metadata.files (afterEntry md entry) = metadata.files md
  /\ metadata.current_path (afterEntry md entry) = metadata.current_path md
  /\ metadata.eTag (afterEntry md entry) = metadata.eTag md.
Proof. unfold afterEntry. destruct (clearsOrigin entry md); repeat split. Qed.

Lemma afterList_frame (list : option (list Entry.t)) (md : metadata.t) :
  metadata.sort (afterList list md) = metadata.sort md
  /\ metadata.files (afterList list md) = metadata.files md
  /\ metadata.current_path (afterList list md) = metadata.current_path md
  /\ metadata.eTag (afterList list md) = metadata.eTag md.
Proof.
  destruct list as [l|]; [|repeat split]. cbn [afterList].
  revert md. induction l as [|entry l IH]; intros md; cbn [fold_left]; [repeat split|].
  destruct (IH (afterEntry md entry)) as (-> & -> & -> & ->).
  apply afterEntry_frame.
Qed.

Lemma selectStorage_frame (origin : StorageType) (md : metadata.t) :
  metadata.sort (exec (selectStorage origin) md) = metadata.sort md
  /\ metadata.files (exec (selectStorage origin) md) = metadata.files md
  /\ metadata.storages (exec (selectStorage origin) md) = metadata.storages md.
Proof.
  unfold exec. rewrite selectStorage_run.
  destruct (storagesGet origin (metadata.storages md)) as [s|]; [|repeat split].
  destruct (StorageData.available s); repeat split.
Qed.

Lemma selectDefaultStorage_frame (md : metadata.t) :
  metadata.sort (exec selectDefaultStorage md) = metadata.sort md
  /\ metadata.files (exec selectDefaultStorage md) = metadata.files md.
Proof.
  unfold exec. rewrite selectDefaultStorage_run.
  destruct (originFalsy (metadata.origin md)); [|split; reflexivity].
  destruct (firstAvailable (metadata.storages md)) as [k|]; [|split; reflexivity].
  destruct (selectStorage_frame k md) as (Hs & Hf & _). unfold exec in Hs, Hf.
  destruct (selectStorage k md) as [[r md1] log1]. split; assumption.
Qed.

Lemma updateFiles_sort_frame (force : bool) (md : metadata.t) :
  metadata.sort (exec (updateFiles force) md) = metadata.sort md
  /\ metadata.files (exec (updateFiles force) md) = metadata.files md.
Proof.
  unfold exec. rewrite updateFiles_run.
  destruct (storagesGetOrigin _ _); [destruct force|]; split; reflexivity.
Qed.

(** Only the sort toggles write [metadata.sort]. *)
Lemma runHandler_sort_frame (localeCompare : string -> string -> Z)
  (printer : PrinterType) (h : Handler) (md : metadata.t) :
  (forall field', h <> HClickSort field') ->
  metadata.sort (exec (runHandler localeCompare printer h) md) = metadata.sort md.
Proof.
  intros Hh. destruct h as [| |redraw list|filesNode lastETag result|origin|path| |field'];
    cbn [runHandler].
  - unfold load. rewrite exec_bind_modify. unfold updateStorage.
    rewrite exec_bind_emit, exec_updateFiles_ret.
    apply (updateFiles_sort_frame false (metadata.set_eTag ENull md)).
  - unfold update, updateStorage. rewrite exec_bind_emit, exec_updateFiles_ret.
    apply updateFiles_sort_frame.
  - rewrite updateStorage_then_exec.
    destruct (selectDefaultStorage_frame (afterList list md)) as [-> _].
    apply afterList_frame.
  - unfold exec. rewrite updateFiles_then_run.
    destruct (ETag_eqb _ _); [reflexivity|].
    destruct (FilesResult.data result);
      [destruct filesNode; [destruct (sortFiles _ _ _)|]|]; reflexivity.
  - apply selectStorage_frame.
  - unfold onClickFolder. rewrite exec_bind_get, exec_bind_modify.
    unfold clearFiles. rewrite exec_bind_emit, exec_updateFiles_ret.
    match goal with
    | |- metadata.sort (exec (updateFiles true) ?m) = _ =>
        destruct (updateFiles_sort_frame true m) as [-> _]
    end. reflexivity.
  - unfold onClickUp. rewrite exec_bind_modify.
    unfold clearFiles. rewrite exec_bind_emit, exec_updateFiles_ret.
    match goal with
    | |- metadata.sort (exec (updateFiles true) ?m) = _ =>
        destruct (updateFiles_sort_frame true m) as [-> _]
    end. reflexivity.
  - exfalso. exact (Hh field' eq_refl).
Qed.

Lemma reachable_sortOrderKnown (localeCompare : string -> string -> Z)
  (printer : PrinterType) (nameSortingOnly : bool) (md : metadata.t) :
  reachable localeCompare printer nameSortingOnly md -> sortOrderKnown md.
Proof.
  unfold sortOrderKnown. induction 1 as [|md h _ IH].
  - destruct nameSortingOnly; cbn; auto.
  - destruct h as [| |redraw list|filesNode lastETag result|origin|path| |field'];
      try (rewrite runHandler_sort_frame by (intros f; discriminate); exact IH).
    cbn [runHandler]. rewrite onClickSort_sort. cbn.
    destruct (field (metadata.sort md) =? field'); [|auto].
    destruct (order (metadata.sort md) =? "asc"); auto.
Qed.

(** X7. In every file context a run of the page goes through, the sort order
    is ["asc"] or ["desc"], and two clicks on the toggle of the current sort
    field bring back the sort field and order there were. *)
Theorem sort_toggle_twice_restores (localeCompare : string -> string -> Z)
  (printer : PrinterType) (nameSortingOnly : bool) (md : metadata.t) :
  reachable localeCompare printer nameSortingOnly md ->
  let click := onClickSort localeCompare (field (metadata.sort md)) in
  (order (metadata.sort md) = "asc" \/ order (metadata.sort md) = "desc")
  /\ metadata.sort (exec click (exec click md)) = metadata.sort md.
Proof.
  intros Hreach. apply reachable_sortOrderKnown in Hreach as Hknown.
  unfold sortOrderKnown in Hknown. cbv zeta. split; [exact Hknown|].
  rewrite !onClickSort_sort. cbn.
  revert Hknown. destruct (metadata.sort md) as [f o]. cbn.
  rewrite !String.eqb_refl.
  intros [->| ->]; reflexivity.
Qed.

Lemma sort_toggle_twice_restores_witness :
  let md := exec (runHandler codeUnitCompare sla (HClickSort "size"))
              (metadata.initial false) in
  let click := onClickSort codeUnitCompare (field (metadata.sort md)) in
  (order (metadata.sort md) = "asc" \/ order (metadata.sort md) = "desc")
  /\ metadata.sort (exec click (exec click md)) = metadata.sort md.
Proof.
  apply (sort_toggle_twice_restores codeUnitCompare sla false).
  apply reachable_step. apply reachable_initial.
Defined.

(** ** The storage poller and [selectStorage] *)

Lemma updateStorageEntry_exact (entry : Entry.t) (flags : bool * bool) (md : metadata.t) :
  updateStorageEntry entry flags md
  = (Return (entryFlags entry flags md), afterEntry md entry, []).
Proof.
  destruct flags as [redrawTabs redrawStorageDetails].
  unfold updateStorageEntry, entryFlags, afterEntry, clearsOrigin, bind, get, modify, ret.
  cbv zeta.
  destruct (storagesGet (Entry.type entry) (metadata.storages md)) as [storage|];
    [|reflexivity].
  change (StorageData.available (storageDataOf entry)) with (Entry.available entry).
  change (StorageData.freeSpace (storageDataOf entry)) with (Entry.free_space entry).
  destruct (negb (Bool.eqb (StorageData.available storage) (Entry.available entry)));
    cbn [andb fst snd].
  - destruct (originIs (metadata.origin md) (Entry.type entry)
              && negb (Entry.available entry)); cbn [app];
      match goal with
      | |- context [if ?c then _ else _] => destruct c
      end; reflexivity.
  - match goal with
    | |- context [if ?c then _ else _] => destruct c
    end; reflexivity.
Qed.

Lemma updateStorageList_exact (redraw : bool) (list : option (list Entry.t))
  (md : metadata.t) :
  updateStorageList redraw list md
  = (Return (match list with
             | Some l => listFlags l (redraw, redraw) md
             | None => (redraw, redraw)
             end),
     afterList list md, []).
Proof.
  unfold updateStorageList, afterList.
  destruct list as [l|]; [|reflexivity].
  generalize (redraw, redraw) as flags. revert md.
  induction l as [|entry l IH]; intros md flags; cbn [forEach fold_left listFlags].
  - reflexivity.
  - unfold bind. rewrite updateStorageEntry_exact, IH. reflexivity.
Qed.

Lemma selectStorage_outcome (origin : StorageType) (md : metadata.t) :
  outcome (selectStorage origin) md = Return tt.
Proof.
  unfold outcome. rewrite selectStorage_run.
  destruct (storagesGet origin (metadata.storages md)) as [s|]; [|reflexivity].
  destruct (StorageData.available s); reflexivity.
Qed.

Lemma selectDefaultStorage_result (md : metadata.t) :
  selectDefaultStorage md
  = (Return tt, exec selectDefaultStorage md, calls selectDefaultStorage md).
Proof.
  unfold exec, calls. rewrite selectDefaultStorage_run.
  destruct (originFalsy (metadata.origin md)); [|reflexivity].
  destruct (firstAvailable (metadata.storages md)) as [k|]; [|reflexivity].
  pose proof (selectStorage_outcome k md) as Ho. unfold outcome in Ho.
  destruct (selectStorage k md) as [[r md1] log1]. cbn in *. subst r. reflexivity.
Qed.

(** The calls of the callback of the storage poll: those of the default
    selection, then the redraw of the tabs when the loop asks for it. *)
Lemma updateStorage_then_calls (redraw : bool) (list : option (list Entry.t))
  (md : metadata.t) :
  let md' := exec (updateStorage_then redraw list) md in
  let flags := match list with
               | Some l => listFlags l (redraw, redraw) md
               | None => (redraw, redraw)
               end in
  calls (updateStorage_then redraw list) md
  = calls selectDefaultStorage (afterList list md)
    ++ (if fst flags
        then [EvStorageUpdate (metadata.storages md') (metadata.origin md') (snd flags)]
        else []).
Proof.
  cbv zeta. rewrite updateStorage_then_exec.
  unfold calls at 1. unfold updateStorage_then, bind at 1.
  rewrite updateStorageList_exact.
  set (flags := match list with
                | Some l => listFlags l (redraw, redraw) md
                | None => (redraw, redraw)
                end).
  destruct flags as [redrawTabs redrawStorageDetails].
  unfold bind at 1. rewrite selectDefaultStorage_result.
  destruct redrawTabs; cbn [fst snd app]; [|reflexivity].
  unfold bind, get, emit. cbn. reflexivity.
Qed.

Lemma find_app_or {A : Type} (p : A -> bool) (l1 l2 : list A) :
  find p (l1 ++ l2) = match find p l1 with Some x => Some x | None => find p l2 end.
Proof.
  induction l1 as [|x l1 IH]; [reflexivity|]. cbn [app find].
  destruct (p x); [reflexivity|exact IH].
Qed.

Lemma mergeStorageList_lookup (l : list Entry.t) (m : Storages) (t : StorageType) :
  storagesGet t (mergeStorageList (Some l) m)
  = match lastEntryOf t l with
    | Some entry => Some (storageDataOf entry)
    | None => storagesGet t m
    end.
Proof.
  unfold lastEntryOf. cbn [mergeStorageList]. revert m.
  induction l as [|x l IH]; intros m; cbn [fold_left rev]; [reflexivity|].
  rewrite IH, find_app_or.
  destruct (find _ (rev l)); [reflexivity|]. cbn [find].
  destruct (StorageType_eqb (Entry.type x) t) eqn:Hx.
  - apply StorageType_eqb_eq in Hx. subst t. apply storagesGet_set_same.
  - apply storagesGet_set_other. intros ->.
    rewrite StorageType_eqb_refl in Hx. discriminate.
Qed.

Lemma updateStorage_then_storages (redraw : bool) (list : option (list Entry.t))
  (md : metadata.t) :
  metadata.storages (exec (updateStorage_then redraw list) md)
  = mergeStorageList list (metadata.storages md).
Proof.
  rewrite updateStorage_then_exec.
  destruct (selectDefaultStorage_exec (afterList list md)) as [-> _].
  apply afterList_storages.
Qed.

(** X8. After the callback of a storage poll, the cache holds for each
    storage type the data of the last entry of the response for that type,
    and what it held before for a type the response does not list. *)
Theorem updateStorage_caches_last_entry (redraw : bool) (list : option (list Entry.t))
  (md : metadata.t) (t : StorageType) :
  storagesGet t (metadata.storages (exec (updateStorage_then redraw list) md))
  = match list with
    | Some l =>
        match lastEntryOf t l with
        | Some entry => Some (storageDataOf entry)
        | None => storagesGet t (metadata.storages md)
        end
    | None => storagesGet t (metadata.storages md)
    end.
Proof.
  rewrite updateStorage_then_storages.
  destruct list as [l|]; [apply mergeStorageList_lookup|reflexivity].
Qed.

Lemma afterList_keeps_origin (l : list Entry.t) (md : metadata.t) (t : StorageType) :
  metadata.origin md = OStorage t ->
  (forall entry, In entry l -> Entry.type entry = t -> Entry.available entry = true) ->
  afterList (Some l) md
  = metadata.set_storages (mergeStorageList (Some l) (metadata.storages md)) md.
Proof.
  cbn [afterList mergeStorageList]. revert md.
  induction l as [|x l IH]; intros md Ho Hav; cbn [fold_left].
  - destruct md. reflexivity.
  - assert (Hclear : clearsOrigin x md = false).
    { unfold clearsOrigin. destruct (storagesGet _ _); [|reflexivity].
      rewrite Ho. cbn [originIs].
      destruct (StorageType_eqb t (Entry.type x)) eqn:Ht.
      - apply StorageType_eqb_eq in Ht.
        rewrite (Hav x (or_introl eq_refl) (eq_sym Ht)). cbn.
        apply andb_false_r.
      - cbn. apply andb_false_r. }
    assert (Hentry : afterEntry md x
                     = metadata.set_storages
                         (storagesSet (Entry.type x) (storageDataOf x)
                            (metadata.storages md)) md).
    { unfold afterEntry. rewrite Hclear. reflexivity. }
    rewrite Hentry, IH.
    + reflexivity.
    + exact Ho.
    + intros entry Hin. apply Hav. right. exact Hin.
Qed.

(** X9. A storage poll does not disturb browsing: while no entry of the
    response reports the selected storage away, the callback writes the
    cache and nothing else of the file context (origin, current path,
    listing, ETag and sort stay), and it neither clears the list nor makes a
    request. *)
Theorem storage_poll_keeps_selection (redraw : bool) (l : list Entry.t)
  (md : metadata.t) (t : StorageType) :
  metadata.origin md = OStorage t ->
  (forall entry, In entry l -> Entry.type entry = t -> Entry.available entry = true) ->
  exec (updateStorage_then redraw (Some l)) md
  = metadata.set_storages (mergeStorageList (Some l) (metadata.storages md)) md
  /\ ~ In EvClearFiles (calls (updateStorage_then redraw (Some l)) md)
  /\ (forall url tag,
         ~ In (EvGetJson url tag) (calls (updateStorage_then redraw (Some l)) md)).
Proof.
  intros Ho Hav.
  pose proof (afterList_keeps_origin l md t Ho Hav) as Hlist.
  assert (Hsel : selectDefaultStorage (afterList (Some l) md)
                 = (Return tt, afterList (Some l) md, [])).
  { rewrite selectDefaultStorage_run, Hlist. cbn [metadata.origin metadata.set_storages].
    rewrite Ho. reflexivity. }
  assert (Hexec : exec (updateStorage_then redraw (Some l)) md = afterList (Some l) md).
  { rewrite updateStorage_then_exec. unfold exec. rewrite Hsel. reflexivity. }
  split; [rewrite Hexec; exact Hlist|].
  pose proof (updateStorage_then_calls redraw (Some l) md) as Hcalls.
  cbv zeta in Hcalls. unfold calls at 2 in Hcalls. rewrite Hsel in Hcalls.
  cbn [snd app] in Hcalls. rewrite Hcalls.
  destruct (fst (listFlags l (redraw, redraw) md)); split.
  - intros [H|[]]. discriminate.
  - intros url tag [H|[]]. discriminate.
  - intros [].
  - intros url tag [].
Qed.

Lemma storage_poll_keeps_selection_witness :
  let l := [localEntry true; usbEntry true] in
  exec (updateStorage_then false (Some l)) browsingLocal
  = metadata.set_storages
      (mergeStorageList (Some l) (metadata.storages browsingLocal)) browsingLocal
  /\ ~ In EvClearFiles (calls (updateStorage_then false (Some l)) browsingLocal)
  /\ (forall url tag,
         ~ In (EvGetJson url tag) (calls (updateStorage_then false (Some l)) browsingLocal)).
Proof.
  apply (storage_poll_keeps_selection false [localEntry true; usbEntry true]
           browsingLocal LOCAL).
  - reflexivity.
  - intros entry [<-|[<-|[]]]; [reflexivity|discriminate].
Defined.

Lemma entryFlags_tabs (entry : Entry.t) (flags : bool * bool) (md : metadata.t) :
  fst (entryFlags entry flags md) = fst flags || tabsChange md entry.
Proof.
  unfold entryFlags, tabsChange.
  destruct (storagesGet _ _) as [storage|]; [|apply eq_sym, orb_true_r].
  cbv zeta.
  destruct (negb (Bool.eqb (StorageData.available storage) (Entry.available entry)));
    match goal with
    | |- context [if ?c then (_, _) else _] => destruct c
    end; cbn [fst]; rewrite ?orb_true_r, ?orb_false_r; reflexivity.
Qed.

Lemma tabsChange_afterEntry (x entry : Entry.t) (md : metadata.t) :
  Entry.type entry <> Entry.type x ->
  tabsChange (afterEntry md x) entry = tabsChange md entry.
Proof.
  intros Hne. unfold tabsChange.
  assert (Hs : metadata.storages (afterEntry md x)
               = storagesSet (Entry.type x) (storageDataOf x) (metadata.storages md)).
  { unfold afterEntry. destruct (clearsOrigin x md); reflexivity. }
  rewrite Hs, storagesGet_set_other by exact Hne. reflexivity.
Qed.

Lemma listFlags_tabs (l : list Entry.t) (flags : bool * bool) (md : metadata.t) :
  NoDup (map Entry.type l) ->
  fst (listFlags l flags md) = fst flags || existsb (tabsChange md) l.
Proof.
  revert flags md. induction l as [|x l IH]; intros flags md Hnd; cbn [listFlags existsb].
  - rewrite orb_false_r. reflexivity.
  - cbn [map] in Hnd. apply NoDup_cons_iff in Hnd as [Hnot Hnd].
    rewrite IH by exact Hnd. rewrite entryFlags_tabs, <- orb_assoc. f_equal. f_equal.
    clear IH Hnd. induction l as [|y l IHl]; [reflexivity|]. cbn [existsb].
    rewrite tabsChange_afterEntry.
    + rewrite IHl; [reflexivity|]. intros Hin. apply Hnot. right. exact Hin.
    + intros Heq. apply Hnot. left. exact Heq.
Qed.

Lemma selectDefaultStorage_no_update (md : metadata.t) (s : Storages) (o : Origin)
  (d : bool) :
  ~ In (EvStorageUpdate s o d) (calls selectDefaultStorage md).
Proof.
  unfold calls. rewrite selectDefaultStorage_run.
  destruct (originFalsy (metadata.origin md)); [|intros []].
  destruct (firstAvailable (metadata.storages md)) as [k|]; [|intros []].
  rewrite selectStorage_run.
  destruct (storagesGet k (metadata.storages md)) as [st|].
  - destruct (StorageData.available st); cbn; intuition discriminate.
  - cbn; intuition discriminate.
Qed.

(** X10. For a response that lists each storage type once, the callback of
    the storage poll redraws the storage tabs exactly when the redraw was
    asked for, or an entry reports a storage that is not cached or that is
    cached with another availability; the redraw gets the cache and the
    origin as the callback leaves them. *)
Theorem storage_tabs_redrawn_on_change (redraw : bool) (l : list Entry.t)
  (md : metadata.t) :
  NoDup (map Entry.type l) ->
  let md' := exec (updateStorage_then redraw (Some l)) md in
  let log := calls (updateStorage_then redraw (Some l)) md in
  ((exists s o d, In (EvStorageUpdate s o d) log)
   <-> (redraw = true
        \/ exists entry,
             In entry l
             /\ (storagesGet (Entry.type entry) (metadata.storages md) = None
                 \/ exists storage,
                      storagesGet (Entry.type entry) (metadata.storages md) = Some storage
                      /\ StorageData.available storage <> Entry.available entry)))
  /\ (forall s o d,
         In (EvStorageUpdate s o d) log ->
         s = metadata.storages md' /\ o = metadata.origin md').
Proof.
  intros Hnd. cbv zeta.
  pose proof (updateStorage_then_calls redraw (Some l) md) as Hcalls.
  cbv zeta in Hcalls. rewrite Hcalls. clear Hcalls.
  rewrite (listFlags_tabs l (redraw, redraw) md Hnd). cbn [fst].
  assert (Hex : existsb (tabsChange md) l = true
                <-> exists entry,
                      In entry l
                      /\ (storagesGet (Entry.type entry) (metadata.storages md) = None
                          \/ exists storage,
                               storagesGet (Entry.type entry) (metadata.storages md)
                               = Some storage
                               /\ StorageData.available storage <> Entry.available entry)).
  { rewrite existsb_exists. unfold tabsChange. split.
    - intros (entry & Hin & Hc). exists entry. split; [exact Hin|].
      destruct (storagesGet _ _) as [storage|]; [|left; reflexivity].
      right. exists storage. split; [reflexivity|].
      intros Heq. rewrite Heq, Bool.eqb_reflx in Hc. discriminate.
    - intros (entry & Hin & [Hnone|(storage & Hsome & Hne)]); exists entry;
        (split; [exact Hin|]).
      + rewrite Hnone. reflexivity.
      + rewrite Hsome.
        destruct (StorageData.available storage), (Entry.available entry);
          try reflexivity; contradiction. }
  split.
  - rewrite <- Hex. split.
    + intros (s & o & d & Hin). apply in_app_or in Hin as [Hin|Hin].
      * exfalso. exact (selectDefaultStorage_no_update _ _ _ _ Hin).
      * destruct (redraw || existsb (tabsChange md) l) eqn:Hflag; [|destruct Hin].
        apply orb_true_iff in Hflag. exact Hflag.
    + intros Hflag. apply orb_true_iff in Hflag. rewrite Hflag.
      eexists _, _, _. apply in_or_app. right. left. reflexivity.
  - intros s o d Hin. apply in_app_or in Hin as [Hin|Hin].
    + exfalso. exact (selectDefaultStorage_no_update _ _ _ _ Hin).
    + destruct (redraw || existsb (tabsChange md) l); [|destruct Hin].
      destruct Hin as [[= <- <- _]|[]]. split; reflexivity.
Qed.

Lemma storage_tabs_redrawn_on_change_witness :
  let l := [localEntry true; usbEntry true] in
  let md' := exec (updateStorage_then false (Some l)) browsingLocal in
  let log := calls (updateStorage_then false (Some l)) browsingLocal in
  ((exists s o d, In (EvStorageUpdate s o d) log)
   <-> (false = true
        \/ exists entry,
             In entry l
             /\ (storagesGet (Entry.type entry) (metadata.storages browsingLocal) = None
                 \/ exists storage,
                      storagesGet (Entry.type entry) (metadata.storages browsingLocal)
                      = Some storage
                      /\ StorageData.available storage <> Entry.available entry)))
  /\ (forall s o d,
         In (EvStorageUpdate s o d) log ->
         s = metadata.storages md' /\ o = metadata.origin md').
Proof.
  apply (storage_tabs_redrawn_on_change false [localEntry true; usbEntry true]
           browsingLocal).
  repeat constructor; simpl; intuition discriminate.
Defined.

(** X11. When the callback of a storage poll selects a storage by default,
    it opens the root of that storage: the current path is the name of the
    storage, the stored ETag is dropped, the list is cleared and the listing
    of the root is requested with no ETag; the cached listing stays until
    the response arrives. *)
Theorem default_selection_opens_root (redraw : bool) (list : option (list Entry.t))
  (md : metadata.t) (k : StorageType) :
  originFalsy (metadata.origin md) = true ->
  firstAvailable (mergeStorageList list (metadata.storages md)) = Some k ->
  let md' := exec (updateStorage_then redraw list) md in
  exists storage,
    storagesGet k (metadata.storages md') = Some storage
    /\ metadata.origin md' = OStorage k
    /\ metadata.current_path md' = [StorageData.name storage]
    /\ metadata.eTag md' = ENull
    /\ metadata.files md' = metadata.files md
    /\ exists tail,
         calls (updateStorage_then redraw list) md
         = [EvClearFiles; EvClearFiles; EvInitUpload;
            EvGetJson (String.append "/api/files/path/" (StorageData.name storage))
              (Some ENull)] ++ tail
         /\ (forall url tag, ~ In (EvGetJson url tag) tail).
Proof.
  intros Hfalsy Hfirst. cbv zeta.
  destruct (firstAvailable_available _ _ Hfirst) as (storage & Hget & Hav).
  exists storage.
  pose proof (updateStorage_then_calls redraw list md) as Hcalls. cbv zeta in Hcalls.
  rewrite Hcalls. clear Hcalls.
  rewrite updateStorage_then_exec.
  assert (Hsel : selectDefaultStorage (afterList list md)
                 = (Return tt,
                    metadata.set_eTag ENull
                      (metadata.set_current_path [StorageData.name storage]
                         (metadata.set_origin (OStorage k) (afterList list md))),
                    [EvClearFiles; EvClearFiles; EvInitUpload;
                     EvGetJson (filesUrl storage [StorageData.name storage])
                       (Some ENull)])).
  { rewrite selectDefaultStorage_run, afterList_origin_falsy, Hfalsy by exact Hfalsy.
    rewrite afterList_storages, Hfirst, selectStorage_run, afterList_storages, Hget, Hav.
    reflexivity. }
  unfold exec, calls at 1. rewrite Hsel. cbn [fst snd].
  cbn [metadata.storages metadata.origin metadata.current_path metadata.eTag
       metadata.files metadata.set_eTag metadata.set_current_path metadata.set_origin].
  rewrite afterList_storages.
  destruct (afterList_frame list md) as (_ & Hfiles & _ & _).
  repeat (split; [first [exact Hget | exact Hfiles | reflexivity]|]).
  eexists. split.
  - cbn [app]. reflexivity.
  - intros url tag Hin.
    match type of Hin with
    | In _ (if ?c then _ else _) => destruct c
    end; [destruct Hin as [H|[]]; discriminate|destruct Hin].
Qed.

Lemma default_selection_opens_root_witness :
  let list := Some [usbEntry false; localEntry true] in
  let md' := exec (updateStorage_then false list) (metadata.initial false) in
  exists storage,
    storagesGet LOCAL (metadata.storages md') = Some storage
    /\ metadata.origin md' = OStorage LOCAL
    /\ metadata.current_path md' = [StorageData.name storage]
    /\ metadata.eTag md' = ENull
    /\ metadata.files md' = metadata.files (metadata.initial false)
    /\ exists tail,
         calls (updateStorage_then false list) (metadata.initial false)
         = [EvClearFiles; EvClearFiles; EvInitUpload;
            EvGetJson (String.append "/api/files/path/" (StorageData.name storage))
              (Some ENull)] ++ tail
         /\ (forall url tag, ~ In (EvGetJson url tag) tail).
Proof.
  apply (default_selection_opens_root false (Some [usbEntry false; localEntry true])
           (metadata.initial false) LOCAL); reflexivity.
Defined.

(** X12. Selecting a cached storage that is available makes it the origin,
    opens its root (the current path is its name, whatever the path was),
    drops the stored ETag and requests the listing of the root with no ETag;
    the cache and the cached listing stay.  Selecting it again leaves the
    file context as the first selection left it. *)
Theorem selectStorage_opens_root (origin : StorageType) (md : metadata.t)
  (storage : StorageData.t) :
  storagesGet origin (metadata.storages md) = Some storage ->
  StorageData.available storage = true ->
  let md' := exec (selectStorage origin) md in
  md' = metadata.set_eTag ENull
          (metadata.set_current_path [StorageData.name storage]
             (metadata.set_origin (OStorage origin) md))
  /\ calls (selectStorage origin) md
     = [EvClearFiles; EvClearFiles; EvInitUpload;
        EvGetJson (String.append "/api/files/path/" (StorageData.name storage))
          (Some ENull)]
  /\ exec (selectStorage origin) md' = md'.
Proof.
  intros Hget Hav. cbv zeta. unfold exec, calls.
  rewrite !selectStorage_run. rewrite Hget, Hav. cbn [fst snd].
  cbn [metadata.storages metadata.set_eTag metadata.set_current_path
       metadata.set_origin].
  rewrite Hget, Hav. repeat split.
Qed.

Lemma selectStorage_opens_root_witness :
  let md' := exec (selectStorage LOCAL) browsingLocal in
  md' = metadata.set_eTag ENull
          (metadata.set_current_path ["PrusaLink gcodes"]
             (metadata.set_origin (OStorage LOCAL) browsingLocal))
  /\ calls (selectStorage LOCAL) browsingLocal
     = [EvClearFiles; EvClearFiles; EvInitUpload;
        EvGetJson "/api/files/path/PrusaLink gcodes" (Some ENull)]
  /\ exec (selectStorage LOCAL) md' = md'.
Proof.
  apply (selectStorage_opens_root LOCAL browsingLocal (storageDataOf (localEntry true)));
    reflexivity.
Defined.

(** ** Navigation *)

Lemma onClickFolder_fdm_run (path : string) (md : metadata.t) :
  onClickFolder fdm path md
  = let md1 := metadata.set_current_path
                 (metadata.current_path md ++ [dropFirstSlash path]) md in
    match updateFiles true md1 with
    | (_, md2, log2) => (Return tt, md2, EvClearFiles :: log2)
    end.
Proof.
  unfold onClickFolder, bind at 1 2 3, get, modify, clearFiles, emit. cbv zeta.
  unfold bind. rewrite updateFiles_run.
  destruct (storagesGetOrigin _ _); reflexivity.
Qed.

Lemma onClickUp_run (md : metadata.t) :
  onClickUp md
  = let md1 := metadata.set_current_path (removelast (metadata.current_path md)) md in
    match updateFiles true md1 with
    | (_, md2, log2) => (Return tt, md2, EvClearFiles :: log2)
    end.
Proof.
  unfold onClickUp, bind at 1 2, modify, clearFiles, emit. cbv zeta.
  unfold bind. rewrite updateFiles_run.
  destruct (storagesGetOrigin _ _); reflexivity.
Qed.

(** X13. For printer type fdm, entering a folder and going up again brings
    back the current path; origin, cache, cached listing and sort are not
    written.  With a storage selected, each of the two clicks clears the
    list, drops the stored ETag and requests the listing of the path it
    leads to with no ETag. *)
Theorem folder_then_up_restores_path (path : string) (md : metadata.t) :
  let md1 := exec (onClickFolder fdm path) md in
  let md2 := exec onClickUp md1 in
  metadata.current_path md1 = metadata.current_path md ++ [dropFirstSlash path]
  /\ metadata.current_path md2 = metadata.current_path md
  /\ (metadata.origin md2 = metadata.origin md
      /\ metadata.storages md2 = metadata.storages md
      /\ metadata.files md2 = metadata.files md
      /\ metadata.sort md2 = metadata.sort md)
  /\ (forall storage,
         storagesGetOrigin (metadata.origin md) (metadata.storages md) = Some storage ->
         metadata.eTag md1 = ENull /\ metadata.eTag md2 = ENull
         /\ calls (onClickFolder fdm path) md
            = [EvClearFiles; EvInitUpload;
               EvGetJson
                 (filesUrl storage (metadata.current_path md ++ [dropFirstSlash path]))
                 (Some ENull)]
         /\ calls onClickUp md1
            = [EvClearFiles; EvInitUpload;
               EvGetJson (filesUrl storage (metadata.current_path md)) (Some ENull)]).
Proof.
  cbv zeta. unfold exec, calls. rewrite onClickFolder_fdm_run. cbv zeta.
  rewrite updateFiles_run.
  cbn [metadata.origin metadata.storages metadata.current_path metadata.set_current_path].
  destruct (storagesGetOrigin (metadata.origin md) (metadata.storages md))
    as [storage|] eqn:Hs; cbn [fst snd];
    rewrite onClickUp_run; cbv zeta; rewrite updateFiles_run;
    cbn [metadata.origin metadata.storages metadata.current_path
         metadata.set_current_path metadata.set_eTag];
    rewrite Hs, removelast_last; cbn [fst snd].
  - repeat split; injection H as <-; reflexivity.
  - repeat split; discriminate.
Qed.

Lemma folder_then_up_restores_path_witness :
  let md1 := exec (onClickFolder fdm "/parts") browsingLocal in
  let md2 := exec onClickUp md1 in
  metadata.current_path md1 = ["PrusaLink gcodes"; "parts"]
  /\ metadata.current_path md2 = ["PrusaLink gcodes"]
  /\ metadata.eTag md2 = ENull
  /\ calls (onClickFolder fdm "/parts") browsingLocal
     = [EvClearFiles; EvInitUpload;
        EvGetJson "/api/files/path/PrusaLink gcodes/parts" (Some ENull)]
  /\ calls onClickUp md1
     = [EvClearFiles; EvInitUpload;
        EvGetJson "/api/files/path/PrusaLink gcodes" (Some ENull)].
Proof.
  destruct (folder_then_up_restores_path "/parts" browsingLocal)
    as (Hin & Hback & _ & Hreq).
  destruct (Hreq (storageDataOf (localEntry true)) eq_refl) as (_ & He & Hc1 & Hc2).
  split; [exact Hin|]. split; [exact Hback|]. split; [exact He|].
  split; [exact Hc1|exact Hc2].
Defined.

(** ** The callback of the listing and [load] *)

(** X14. A response with a new ETag and no data makes the callback of the
    listing throw after it has stored the ETag: the cached listing is not
    replaced and nothing is redrawn, and the next response with that ETag,
    with or without a listing, is dropped by a poll without the force
    flag. *)
Theorem response_without_data_keeps_listing
  (localeCompare : string -> string -> Z) (filesNode : bool) (lastETag : ETag)
  (result : FilesResult.t) (md : metadata.t) :
  FilesResult.eTag result <> lastETag ->
  FilesResult.data result = None ->
  let callback := updateFiles_then localeCompare filesNode lastETag result in
  let md1 := exec callback md in
  outcome callback md = Throw TypeError
  /\ md1 = metadata.set_eTag (FilesResult.eTag result) md
  /\ calls callback md = []
  /\ (forall filesNode' result',
         FilesResult.eTag result' = FilesResult.eTag result ->
         updateFiles_then localeCompare filesNode' (metadata.eTag md1) result' md1
         = (Return tt, md1, [])).
Proof.
  intros HeTag Hdata. cbv zeta. unfold outcome, exec, calls.
  rewrite updateFiles_then_run, Hdata.
  apply ETag_eqb_neq in HeTag. rewrite HeTag. cbn [fst snd].
  repeat split. intros filesNode' result' Hsame.
  rewrite updateFiles_then_run. cbn [metadata.eTag metadata.set_eTag].
  rewrite Hsame, ETag_eqb_refl. reflexivity.
Qed.

Lemma response_without_data_keeps_listing_witness :
  let result := FilesResult.mk (EToken "etag-2") None in
  let callback := updateFiles_then codeUnitCompare true (EToken "etag-1") result in
  let md1 := exec callback browsingLocal in
  outcome callback browsingLocal = Throw TypeError
  /\ md1 = metadata.set_eTag (EToken "etag-2") browsingLocal
  /\ calls callback browsingLocal = []
  /\ (forall filesNode' result',
         FilesResult.eTag result' = EToken "etag-2" ->
         updateFiles_then codeUnitCompare filesNode' (metadata.eTag md1) result' md1
         = (Return tt, md1, [])).
Proof.
  apply (response_without_data_keeps_listing codeUnitCompare true (EToken "etag-1")
           (FilesResult.mk (EToken "etag-2") None) browsingLocal).
  - discriminate.
  - reflexivity.
Defined.

(** X15. [load] stops at the preview when [findFile] throws: the stored ETag
    is gone, and neither the storage nor the listing is requested.  When
    [findFile] returns, [load] requests the storage and then the listing
    without the force flag, and asks the job component to drop the preview
    exactly when the file is not found; it selects the file anew only when
    the date of the file is greater than the [data] of the preview, never
    when the preview has no [data]. *)
Theorem load_stops_when_findFile_throws (printer : PrinterType)
  (previewFile : PreviewFile.t) (md : metadata.t) :
  let found := findFile printer (metadata.files md)
                 (PreviewFile.origin previewFile) (PreviewFile.path previewFile) in
  (forall e, found = Throw e ->
             loadPage printer (Some previewFile) md
             = (Throw e, metadata.set_eTag ENull md, []))
  /\ (forall file, found = Return file ->
        exec (loadPage printer (Some previewFile)) md
        = metadata.set_eTag ENull md
        /\ calls (loadPage printer (Some previewFile)) md
           = EvGetJson "/api/v1/storage" None
               :: calls (updateFiles false) (metadata.set_eTag ENull md)
        /\ (outcome (loadPage printer (Some previewFile)) md
            = Return (SelectFilePreview None) <-> file = None)
        /\ (forall file',
               outcome (loadPage printer (Some previewFile)) md
               = Return (SelectFilePreview (Some file')) ->
               file = Some file'
               /\ exists d t, PreviewFile.data previewFile = Some d
                              /\ date file' = Some t /\ (d < t)%Z)).
Proof.
  cbv zeta. split.
  - intros e Hfound.
    unfold loadPage, bind at 1, modify. unfold bind at 1.
    unfold loadPreview, bind at 1, get.
    cbn [metadata.files metadata.set_eTag]. rewrite Hfound. reflexivity.
  - intros file Hfound.
    assert (Hrun : forall action,
               (match file with
                | None => ret (SelectFilePreview None)
                | Some f =>
                    if gtNumber (date f) (PreviewFile.data previewFile)
                    then ret (SelectFilePreview (Some f)) else ret KeepPreview
                end) (metadata.set_eTag ENull md)
               = (Return action, metadata.set_eTag ENull md, []) ->
               loadPage printer (Some previewFile) md
               = (Return action, metadata.set_eTag ENull md,
                  EvGetJson "/api/v1/storage" None
                    :: calls (updateFiles false) (metadata.set_eTag ENull md))).
    { intros action Haction.
      unfold loadPage, bind at 1, modify. unfold bind at 1.
      unfold loadPreview, bind at 1, get.
      cbn [metadata.files metadata.set_eTag]. rewrite Hfound.
      cbn [metadata.files metadata.set_eTag] in Haction. rewrite Haction.
      unfold updateStorage, bind, emit, ret, calls. rewrite updateFiles_run.
      cbn [metadata.origin metadata.storages metadata.set_eTag].
      destruct (storagesGetOrigin _ _); reflexivity. }
    unfold exec, calls at 1, outcome.
    destruct file as [f|].
    + destruct (gtNumber (date f) (PreviewFile.data previewFile)) eqn:Hgt.
      * rewrite (Hrun (SelectFilePreview (Some f))) by reflexivity.
        cbn [fst snd]. split; [reflexivity|]. split; [reflexivity|]. split.
        -- split; intros H; discriminate.
        -- intros file' [= <-]. split; [reflexivity|].
           unfold gtNumber in Hgt.
           destruct (date f) as [t|]; [|discriminate].
           destruct (PreviewFile.data previewFile) as [d|]; [|discriminate].
           exists d, t. apply Z.ltb_lt in Hgt. auto.
      * rewrite (Hrun KeepPreview) by reflexivity.
        cbn [fst snd]. split; [reflexivity|]. split; [reflexivity|]. split.
        -- split; intros H; discriminate.
        -- intros file' H. discriminate.
    + rewrite (Hrun (SelectFilePreview None)) by reflexivity.
      cbn [fst snd]. split; [reflexivity|]. split; [reflexivity|]. split.
      -- split; reflexivity.
      -- intros file' H. discriminate.
Qed.

Lemma load_stops_when_findFile_throws_witness :
  loadPage sla (Some (PreviewFile.mk "local" "/a.gcode/b" None))
    (metadata.set_files [rootWithLeaf] browsingLocal)
  = (Throw TypeError,
     metadata.set_eTag ENull (metadata.set_files [rootWithLeaf] browsingLocal), []).
Proof.
  apply (load_stops_when_findFile_throws sla
           (PreviewFile.mk "local" "/a.gcode/b" None)
           (metadata.set_files [rootWithLeaf] browsingLocal)).
  reflexivity.
Defined.

(** ** The direct upload widget *)

Section WidgetRuns.
Variable translate : string -> option string -> string.

Lemma countWhere_app (p : Direct.Effect -> bool) (l : list Direct.Effect)
  (e : Direct.Effect) :
  countWhere p (l ++ [e]) = (countWhere p l + (if p e then 1 else 0))%nat.
Proof.
  unfold countWhere. rewrite filter_app, length_app. cbn [filter].
  destruct (p e); reflexivity.
Qed.

Lemma requestsAccounted_step (st : Direct.State) (i : Direct.Input) :
  requestsAccounted st -> requestsAccounted (Direct.step translate st i).
Proof.
  unfold requestsAccounted. intros H.
  destruct i as [origin path|files checked|n|n pct|n s]; cbn [Direct.step].
  - unfold Direct.init, Direct.initInput.
    destruct (Direct.inputValue st); cbn [Direct.isUploading];
      destruct (Direct.isUploading st); exact H.
  - destruct (Direct.onchange st) as [[origin path]|]; [|exact H].
    unfold Direct.input_onchange. destruct files as [|file' files]; [exact H|].
    destruct (negb (Direct.isUploading st)); exact H.
  - destruct (nth_error (Direct.reading st) n) as [u|]; [|exact H].
    cbn -[countWhere]. rewrite !countWhere_app, length_app. cbn -[countWhere]. lia.
  - destruct (nth_error (Direct.inFlight st) n) as [u|]; [|exact H]. exact H.
  - destruct (nth_error (Direct.inFlight st) n) as [u|] eqn:Hu; [|exact H].
    apply length_removeAt in Hu.
    destruct s as [|[r|]]; cbn -[countWhere]; rewrite !countWhere_app;
      cbn -[countWhere]; lia.
Qed.

(** X16. Whatever the event loop delivers to the widget, in whatever order,
    every upload request that was started is still in flight or was
    reported exactly once, by the success toast, the error toast or
    [handleError]. *)
Theorem every_request_reported_once (widget' : option string) (progressEl' : option Z)
  (inputValue' : option string) (inputs : list Direct.Input) :
  let st := Direct.run translate (Direct.initialState widget' progressEl' inputValue')
              inputs in
  countWhere isRequest (Direct.effects st)
  = (List.length (Direct.inFlight st) + countWhere isReport (Direct.effects st))%nat.
Proof.
  cbv zeta. unfold Direct.run.
  assert (Hgen : forall st, requestsAccounted st ->
                            requestsAccounted (fold_left (Direct.step translate) inputs st)).
  { induction inputs as [|i inputs IH]; intros st H; cbn [fold_left]; [exact H|].
    apply IH, requestsAccounted_step, H. }
  apply Hgen. reflexivity.
Qed.

(** X17. An upload goes where the widget was last initialised for: after
    [init(origin, path, ...)] on a page that has the file input, with no
    upload going on, a change of the input starts reading its first file
    for the URL of that origin and path and the name of the file, to be
    printed only when the start-print checkbox is there and checked; no
    request is made yet. *)
Theorem change_uploads_to_initialised_folder (st : Direct.State)
  (origin path : string) (file' : Direct.File) (files : list Direct.File)
  (checked : option bool) :
  Direct.inputValue st <> None ->
  Direct.isUploading st = false ->
  let st' := Direct.step translate (Direct.step translate st (Direct.Init origin path))
               (Direct.Change (file' :: files) checked) in
  Direct.reading st'
  = Direct.reading st
    ++ [Direct.mkUpload file'
          (String.append "/api/v1/files/"
             (String.append origin
                (String.append "/"
                   (String.append path (String.append "/" (Direct.name file'))))))
          (match checked with Some true => true | _ => false end)]
  /\ Direct.inFlight st' = Direct.inFlight st
  /\ Direct.effects st' = Direct.effects st
  /\ Direct.isUploading st' = false.
Proof.
  intros Hinput Hidle. cbv zeta. cbn [Direct.step].
  unfold Direct.init, Direct.initInput.
  destruct (Direct.inputValue st) as [v|]; [|contradiction].
  cbn [Direct.isUploading]. rewrite Hidle. cbn [Direct.onchange].
  unfold Direct.input_onchange. cbn [Direct.isUploading negb]. rewrite ?Hidle.
  cbn. rewrite ?Hidle. repeat split.
Qed.

(** X18. Initialising the widget again while a file is uploading (the page
    was redrawn) keeps the upload: [isUploading] and the progress stay, the
    widget shows the uploading state and the progress again, and the
    pending file reads and requests are untouched. *)
Theorem init_during_upload_keeps_progress (st : Direct.State) (origin path : string) :
  Direct.isUploading st = true ->
  let st' := Direct.step translate st (Direct.Init origin path) in
  Direct.isUploading st' = true
  /\ Direct.progress st' = Direct.progress st
  /\ Direct.widget st' = option_map (fun _ => "uploading") (Direct.widget st)
  /\ Direct.progressEl st'
     = option_map (fun _ => Direct.progress st) (Direct.progressEl st)
  /\ Direct.reading st' = Direct.reading st
  /\ Direct.inFlight st' = Direct.inFlight st
  /\ Direct.effects st' = Direct.effects st.
Proof.
  intros Hup. cbv zeta. cbn [Direct.step]. unfold Direct.init, Direct.initInput.
  destruct (Direct.inputValue st); cbn [Direct.isUploading]; rewrite Hup; cbn;
    destruct (Direct.widget st), (Direct.progressEl st); repeat split.
Qed.
End WidgetRuns.

Lemma change_uploads_to_initialised_folder_witness :
  let st' := Direct.step translateKey
               (Direct.step translateKey widgetAtLoad (Direct.Init "usb" "parts"))
               (Direct.Change [fileA; fileB] (Some true)) in
  Direct.reading st'
  = [Direct.mkUpload fileA "/api/v1/files/usb/parts/a.gcode" true]
  /\ Direct.inFlight st' = []
  /\ Direct.effects st' = []
  /\ Direct.isUploading st' = false.
Proof.
  apply (change_uploads_to_initialised_folder translateKey widgetAtLoad "usb" "parts"
           fileA [fileB] (Some true)).
  - discriminate.
  - reflexivity.
Defined.

Lemma init_during_upload_keeps_progress_witness :
  let st := Direct.run translateKey widgetAtLoad
              [Direct.Init "local" "parts"; Direct.Change [fileA] None;
               Direct.ArrayBufferRead 0; Direct.Progress 0 40%Z] in
  let st' := Direct.step translateKey st (Direct.Init "local" "archive") in
  Direct.isUploading st' = true
  /\ Direct.progress st' = 40%Z
  /\ Direct.widget st' = Some "uploading"
  /\ Direct.progressEl st' = Some 40%Z
  /\ Direct.reading st' = []
  /\ Direct.inFlight st' = [Direct.mkUpload fileA "/api/v1/files/local/parts/a.gcode" false]
  /\ Direct.effects st' = [Direct.uploadRequest "/api/v1/files/local/parts/a.gcode" false].
Proof.
  apply (init_during_upload_keeps_progress translateKey
           (Direct.run translateKey widgetAtLoad
              [Direct.Init "local" "parts"; Direct.Change [fileA] None;
               Direct.ArrayBufferRead 0; Direct.Progress 0 40%Z])
           "local" "archive").
  reflexivity.
Defined.

(** X19. After [update(linkState)] with a link state that is not
    operational, the start-print checkbox is not checked, whatever it was,
    so that a file chosen next is uploaded without the print flag; with an
    operational state the checkbox keeps its mark.  [setDisabled] is taken
    to leave the mark of the checkbox alone. *)
Theorem update_unchecks_start_print (LinkState : Type)
  (isOperational : LinkState -> bool)
  (setDisabled : DirectUpdate.Checkbox LinkState -> bool -> DirectUpdate.Checkbox LinkState)
  (setDisabled_checked :
     forall c d, DirectUpdate.checked (setDisabled c d) = DirectUpdate.checked c)
  (linkState : LinkState) (checkbox : option (DirectUpdate.Checkbox LinkState))
  (origin path : string) (file' : Direct.File) (files : list Direct.File)
  (st : Direct.State) :
  let checkbox' := DirectUpdate.update isOperational setDisabled linkState checkbox in
  option_map DirectUpdate.checked checkbox'
  = option_map (fun c => DirectUpdate.checked c && isOperational linkState) checkbox
  /\ (isOperational linkState = false ->
      Direct.isUploading st = false ->
      Direct.input_onchange origin path (file' :: files)
        (option_map DirectUpdate.checked checkbox') st
      = Direct.uploadFile file' origin path false st).
Proof.
  cbv zeta. unfold DirectUpdate.update.
  destruct checkbox as [c|]; cbn [option_map].
  - rewrite setDisabled_checked.
    destruct (isOperational linkState) eqn:Hop; cbn [negb DirectUpdate.checked].
    + rewrite andb_true_r. split; [reflexivity|discriminate].
    + rewrite andb_false_r. split; [reflexivity|]. intros _ Hidle.
      unfold Direct.input_onchange. rewrite Hidle. reflexivity.
  - split; [reflexivity|]. intros _ Hidle.
    unfold Direct.input_onchange. rewrite Hidle. reflexivity.
Qed.

Lemma update_unchecks_start_print_witness :
  let checkbox := Some (DirectUpdate.mkCheckbox true false (@None bool)) in
  let checkbox' := DirectUpdate.update (fun ready : bool => ready)
                     DirectUpdate.writeDisabled false checkbox in
  option_map DirectUpdate.checked checkbox' = Some false
  /\ (false = false ->
      Direct.isUploading widgetAtLoad = false ->
      Direct.input_onchange "local" "parts" [fileA]
        (option_map DirectUpdate.checked checkbox') widgetAtLoad
      = Direct.uploadFile fileA "local" "parts" false widgetAtLoad).
Proof.
  exact (update_unchecks_start_print bool (fun ready : bool => ready)
           DirectUpdate.writeDisabled (fun c d => eq_refl) false
           (Some (DirectUpdate.mkCheckbox true false None))
           "local" "parts" fileA [] widgetAtLoad).
Defined.

(** ** The details of a folder entry *)

Lemma append_empty (a b : string) :
  String.append a b = EmptyString -> a = EmptyString /\ b = EmptyString.
Proof. destruct a; cbn; [auto|discriminate]. Qed.

Lemma countDescendants_zero (ty : string) (node : FileSystemNode) :
  countDescendants ty node = 0%nat
  <-> forall d, In d (descendants node) -> (type d =? ty) = false.
Proof.
  unfold countDescendants. generalize (descendants node) as l.
  induction l as [|x l IH]; cbn [filter].
  - split; [intros _ d []|reflexivity].
  - destruct (type x =? ty) eqn:Hx; cbn [List.length].
    + split; [discriminate|]. intros H.
      specialize (H x (or_introl eq_refl)). congruence.
    + rewrite IH. split.
      * intros H d [<-|Hin]; auto.
      * intros H d Hin. apply H. right. exact Hin.
Qed.

(** X20. The details [redrawFiles] shows for a folder are empty exactly when
    no file and no folder can be reached in it through folders; otherwise
    they show the count of files, the count of folders, or both. *)
Theorem folderDetails_empty_iff (numberToString : nat -> string)
  (entry : FileSystemNode) :
  folderDetails numberToString entry = EmptyString
  <-> (forall d, In d (descendants entry) ->
                 isMachinecode d = false /\ isFolder d = false).
Proof.
  unfold folderDetails, detailsText.
  rewrite countFilesRecursively_descendants, countFoldersRecursively_descendants.
  pose proof (countDescendants_zero "machinecode" entry) as Hfiles.
  pose proof (countDescendants_zero "folder" entry) as Hfolders.
  destruct (Nat.eqb_spec (countDescendants "machinecode" entry) 0) as [Hf|Hf];
    destruct (Nat.eqb_spec (countDescendants "folder" entry) 0) as [Hd|Hd];
    cbn [flat_map app join String.concat].
  - split; [|reflexivity]. intros _ d Hin. split.
    + apply Hfiles; assumption.
    + apply Hfolders; assumption.
  - split.
    + intros H. apply append_empty in H as [_ H]. discriminate.
    + intros H. exfalso. apply Hd, Hfolders. intros d Hin. apply (H d Hin).
  - split.
    + intros H. apply append_empty in H as [_ H]. discriminate.
    + intros H. exfalso. apply Hf, Hfiles. intros d Hin. apply (H d Hin).
  - split.
    + intros H. apply append_empty in H as [H _].
      apply append_empty in H as [_ H]. discriminate.
    + intros H. exfalso. apply Hf, Hfiles. intros d Hin. apply (H d Hin).
Qed.

Example folderDetails_of_listing :
  map (folderDetails (fun n => match n with 1%nat => "1" | _ => "n" end))
    (filter isFolder listing)
  = ["1 files"; EmptyString].
Proof. reflexivity. Qed.
